(* ===== verification/_CoqProject ===== *)
-Q . S2P
Prelude.v
Escape.v
Format.v
XmlWf.v
XmlParse.v
Streaming.v
Metadata.v
Payload.v
Orchestrator.v
SessionSpec.v
