(* ===== verification/Prelude.v ===== *)
(** * A verification development of crab-dlna's playback core

    ** The program

    The repository's source is [src/src/dlna.rs]: the constant
    [PAYLOAD_PLAY] (lines 5-8) and one async function
    [play(render, streaming_server)] (lines 10-84).  [play]
    - asks the streaming server for its subtitle URI (line 12) and, when
      there is one, renders the DIDL-Lite metadata document with [format!]
      from the video URI, video type, subtitle URI and subtitle type
      (defaulting to ["unknown"]), and escapes it with xml-rs's
      [escape_str_attribute] (lines 13-42); without subtitle the metadata is
      empty;
    - formats the body of the UPnP action [SetAVTransportURI] with the video
      URI and the metadata (lines 44-51);
    - spawns the server's run loop as a tokio task (lines 53-56);
    - sends [SetAVTransportURI], then [Play] with [PAYLOAD_PLAY], to the
      renderer's AVTransport service, panicking with a message naming the
      action and the error if one fails (lines 58-78);
    - awaits the spawned task, panicking if it failed (lines 80-84).
    The streaming server ([crate::streaming]), the renderer handle
    ([crate::devices::Render]), the SOAP client (rupnp) and xml-rs are not
    under [src/]; [play] only calls them.

    ** The files (library root [Prelude], then in dependency order)

    - [Prelude] (this file): Rust's [result], the character constants of
      the templates, string functions ([strip_prefix], [after],
      [split_until], [take_until], [occ]) and a small reader of XML text
      ([attr_value], [elem_text]) with their lemmas, the [star] closure of a
      step relation, the hint databases [dlna] and [dlna_str] and the
      tactics [read_back] and [no_char_split].
    - [Escape] (Module [Escape]): [escape_str_attribute] from xml-rs's
      attribute escape table, and [unescape_attribute], a reference reader
      of attribute values.  Lemmas: the output has no markup character, the
      reader inverts the escaper, length bounds, identity on plain text.
    - [Format] (Module [Format]): Rust's [format!]: rustc's parser of
      format strings ([parse_format]: [{}], [{n}], [{name}], [{{], [}}])
      into a [template] of literal and argument [piece]s, its checks that
      every slot is bound and every argument used, and the run-time
      [render]ing; [format] is the whole call.
    - [XmlWf] (Module [XmlWf]): what "well-formed XML" means for the
      payloads (spec sections 3 and 8): [xml_char], a recognizer of XML 1.0
      well-formedness (tags, attributes, references, the stack of open
      elements), with [fragment_wf] for element content and [document_wf]
      for a document; and the lemmas that check a rendered template once
      for all arguments without markup ([inert], [xml_run_render]).
    - [XmlParse] (Module [XmlParse]): what the renderer reads: [p_char], an
      XML reader into a tree of [node]s built on the recognizer (its state
      is the recognizer's plus the tree under construction), with
      [parse_fragment] and [parse_document]; and the lemmas that parse a
      rendered template once for all arguments, text without markup being
      read as itself and the escaper's output as the text it escapes
      ([p_run_markup_free], [p_run_escape], [parse_fragment_render]).
    - [Streaming] (Module [Streaming]): the streaming server's accessors as
      the class [MediaStreaming] (spec 4.4) and the media descriptor record
      [MediaStreamingServer] (spec 3); modelled from the spec.
    - [Metadata] (Module [Metadata]): the DIDL-Lite template of lines 16-33
      byte for byte, [didl_metadata] (the [format!] call) and
      [payload_subtitle] (lines 12-42).
    - [Payload] (Module [Payload]): [PAYLOAD_PLAY], the [SetAVTransportURI]
      template and [payload_setavtransporturi], and [element_text], a reader
      of the bodies.
    - [Orchestrator] (Module [Orchestrator]): [play] as a program of the
      free-monad type [prog] over the effects the function performs
      (accessor calls, [println!], [tokio::spawn], the two actions, the
      join, [panic!]), written with ExtLib's monad notation in source order:
      [payload_subtitle_prog] (lines 12-42), [play_control] (lines 44-84).
      Its semantics in an environment (the server, the renderer's answer to
      each action, the result of the spawned task): [step], the
      interleaving of the orchestrator's steps with the completion of the
      spawned task at any moment, and [exec], an interpreter that runs the
      orchestrator to its end.
    - [SessionSpec] (Module [SessionSpec]): the session state machine of
      spec section 4.2 ([sstep]) and the map [observe] from the
      orchestrator's events to its labels.

    ** What is proved

    - Orchestration (Orchestrator): [exec] is a run of [step]; no step
      changes where a schedule ends ([step_run_to_end]), so every schedule
      ends in the same configuration ([play_schedule_independent]) and can
      always reach it ([play_reaches_end]); that end is computed exactly
      ([play_run_to_end]): success, each error path with its panic message,
      the join result propagated ([play_success], [play_setav_error],
      [play_play_error], [play_join_result]); [SetAVTransportURI] only after
      the spawn and [Play] only after a successful [SetAVTransportURI], at
      every moment of every schedule ([play_action_order]); each action sent
      at most once, no retry ([play_no_retry]); every schedule takes at
      most 13 steps ([play_schedule_bounded], from the measure [measure]
      that every [step] decreases); all accessor calls precede
      the spawn ([play_queries_before_spawn]); the effectful
      metadata computation refines [Metadata.payload_subtitle]
      ([exec_payload_subtitle_prog]).  Two lemmas check the model itself
      rather than [play]: for every program [run_to_end] computes exactly
      the normal forms of [step] ([run_to_end_normal_form]), and [step]
      keeps the discipline of a tokio [JoinHandle] ([task_discipline]).
      Composed with the payloads and the
      XML reader: every action of every schedule goes to the control URL
      and its body reads back as the fields of [SetAVTransportURI] (with the
      unescaped DIDL-Lite document) or of [Play] ([play_bodies_parse]);
      with a subtitle, that document reads as the spec's DIDL-Lite tree of
      the server's own values ([play_metadata_shape]).
    - Refinement (SessionSpec): every complete schedule follows a path of
      the session machine to the final state matching its outcome, with a
      diagnostic naming the failed step and error ([play_refines_session]),
      and every partial schedule is a path ([play_session_path]).
    - Payloads (Payload): reading [CurrentURIMetaData] back and unescaping
      it gives the DIDL-Lite document ([setav_metadata_roundtrip]); the
      escaped metadata adds no markup ([setav_body_markup]); the fixed
      fields of both bodies; the video URI reads back when it has no
      ampersand or less-than ([setav_current_uri]).  Both bodies are well-formed XML for every
      video URI without markup and every server ([control_payloads_well_formed]),
      but every video URI with an ampersand that no [;] follows (a query
      string) breaks the body ([setav_query_uri_ill_formed]).  The lemma
      [setav_format_call] checks that the source's format string parses to
      the template.  An XML
      reader reads the [Play] body as instance [0] and speed [1] and the
      [SetAVTransportURI] body, for every server, as instance [0], the URI
      and the DIDL-Lite document itself ([control_payloads_parse]).  The
      body's size is exactly 128 bytes of template, the URI, the document
      and the bytes each reference of the escape adds ([setav_body_size]).
    - Metadata (Metadata): the metadata is empty iff there is no subtitle;
      every slot of the document reads back the value [play] put there; the
      subtitle URI occurs at least five times; the document has one
      [DIDL-Lite] root, one [item], three [res] and two [sec:CaptionInfo]
      elements ([didl_element_counts]); the document read from the code's
      payload announces a missing subtitle type as ["unknown"]
      ([metadata_subtitle_type_default]; [metadata_document] is the
      unescape of [payload_subtitle], not a copy of its [match]); the
      escaped metadata holds no markup character ([payload_subtitle_safe]);
      the URIs are put in unescaped, so every subtitle URI with an
      ampersand that no [;] follows breaks the document
      ([didl_query_uri_ill_formed]), which is otherwise a well-formed XML
      document ([didl_well_formed]) which an XML reader reads as exactly
      the element tree of spec section 6, [didl_shape]
      ([didl_document_shape]); the lemma [didl_format_call] checks that the
      source's format string parses to [didl_template].
    - Escaping (Escape): the lemmas the payload theorems use.

    ** Bounds and fuel

    No definition needs fuel: every recursion is structural, on the string
    or on the program (an effect's continuation applied to its answer is a
    subterm).  The interleaving semantics terminates because [play] is a
    finite program with one spawned task: [play_schedule_bounded] bounds
    every schedule by 13 steps and [play_reaches_end] shows every
    reachable configuration reaches the irreducible end.  Strings are byte
    strings ([Stdlib.Strings.String] of [ascii]): Rust strings are UTF-8,
    and every character the code or xml-rs inspects is ASCII.

    ** Assumptions and what is not modelled

    The renderer's answer to an action is a function of the control URL,
    the action name and the body, not of when it is sent; the spawned task
    ends with one result whenever it ends.  Device discovery, the command
    line, the HTTP serving inside the streaming server, the SOAP transport,
    the tokio runtime's internals (its scheduler, and the drop of the
    detached task at runtime shutdown) are not modelled; nor are format
    specs such as [{:?}], which the source does not use.  [println!] is an
    event of the trace; its output is not modelled further.

    What is left is outside [src/] and outside what the spec describes:
    the streaming server ([crate::streaming]) is modelled at its interface
    (spec 4.4), its run loop by the result it ends with; the renderer
    client (rupnp) by the answer of each action, its SOAP envelope and
    HTTP exchange being out of the spec's scope (section 1), and the
    renderer's reading of each body by the XML reader of [XmlParse];
    device discovery ([crate::devices]) and the command line by the
    [Render] value [play] receives.  Nothing of [dlna.rs] is left
    unmodelled but its [use] lines. *)

From Stdlib Require Import String Ascii List Bool Lia.
Import ListNotations.
Local Open Scope string_scope.

Declare Scope dlna_scope.
Delimit Scope dlna_scope with dlna.

Create HintDb dlna.
Create Rewrite HintDb dlna_str.

(** ** Rust's [Result] *)

Inductive result (T E : Type) : Type :=
| Ok (t : T)
| Err (e : E).
Arguments Ok {T E} t.
Arguments Err {T E} e.

(** [Option::unwrap_or]. *)
Definition unwrap_or {A : Type} (o : option A) (d : A) : A :=
  match o with Some a => a | None => d end.

(** ** Characters and literals

    Rocq string literals cannot hold a double quote without doubling it, so
    the XML templates of [dlna.rs] are written with a backtick where the
    Rust source has a double quote; [q] turns every backtick back into one.
    The templates of the source contain no backtick of their own. *)

Definition dq : ascii := "034"%char.
Definition nl : ascii := "010"%char.
Definition cr : ascii := "013"%char.
Definition bq : ascii := "096"%char.

Definition str1 (c : ascii) : string := String c EmptyString.

Fixpoint q (s : string) : string :=
  match s with
  | EmptyString => EmptyString
  | String c s' => String (if Ascii.eqb c bq then dq else c) (q s')
  end.

(** ** Generic lemmas on strings *)

Lemma append_assoc (a b c : string) : (a ++ b) ++ c = a ++ (b ++ c).
Proof. induction a as [|x a IH]; simpl; [reflexivity | now rewrite IH]. Qed.

Lemma append_nil_r (a : string) : a ++ EmptyString = a.
Proof. induction a as [|x a IH]; simpl; [reflexivity | now rewrite IH]. Qed.

Lemma length_append (a b : string) : String.length (a ++ b) = String.length a + String.length b.
Proof. induction a as [|x a IH]; simpl; [reflexivity | now rewrite IH]. Qed.

#[export] Hint Rewrite append_assoc append_nil_r length_append : dlna_str.

(** ** Character membership, as a boolean test *)

Fixpoint no_char (c : ascii) (s : string) : bool :=
  match s with
  | EmptyString => true
  | String x s' => negb (Ascii.eqb x c) && no_char c s'
  end.

Lemma no_char_app c a b : no_char c (a ++ b) = no_char c a && no_char c b.
Proof. induction a as [|x a IH]; simpl; [reflexivity | now rewrite IH, andb_assoc]. Qed.

Lemma no_char_app_iff c a b :
  no_char c (a ++ b) = true <-> no_char c a = true /\ no_char c b = true.
Proof. rewrite no_char_app. apply andb_true_iff. Qed.

#[export] Hint Rewrite no_char_app : dlna_str.

(** ** Prefixes, search and splitting

    These are the primitive steps of a reader of XML text: [strip_prefix p s]
    removes the prefix [p] of [s]; [after p s] is the text after the first
    occurrence of [p] in [s]; [split_until c s] splits [s] before the first
    character [c]. *)

Fixpoint strip_prefix (p s : string) : option string :=
  match p, s with
  | EmptyString, _ => Some s
  | String a p', String b s' => if Ascii.eqb a b then strip_prefix p' s' else None
  | String _ _, EmptyString => None
  end.

Fixpoint after (p s : string) {struct s} : option string :=
  match strip_prefix p s with
  | Some r => Some r
  | None => match s with
            | EmptyString => None
            | String _ s' => after p s'
            end
  end.

Fixpoint split_until (c : ascii) (s : string) : string * string :=
  match s with
  | EmptyString => (EmptyString, EmptyString)
  | String x s' =>
      if Ascii.eqb x c then (EmptyString, s)
      else let (a, b) := split_until c s' in (String x a, b)
  end.

Fixpoint take_until (c : ascii) (s : string) : string :=
  match s with
  | EmptyString => EmptyString
  | String x s' => if Ascii.eqb x c then EmptyString else String x (take_until c s')
  end.

Lemma strip_prefix_app p s : strip_prefix p (p ++ s) = Some s.
Proof. induction p as [|x p IH]; simpl; [reflexivity | now rewrite Ascii.eqb_refl]. Qed.

(** A search for a pattern that starts with [c] skips a text without [c]. *)
Lemma after_skip c p a b :
  no_char c a = true -> after (String c p) (a ++ b) = after (String c p) b.
Proof.
  induction a as [|x a IH]; simpl; [reflexivity|].
  intros H. apply andb_true_iff in H as [Hx Ha].
  destruct (Ascii.eqb_spec c x) as [<-|_]; [now rewrite Ascii.eqb_refl in Hx | auto].
Qed.

Lemma split_until_app c a b :
  no_char c a = true -> split_until c (a ++ String c b) = (a, String c b).
Proof.
  induction a as [|x a IH]; simpl; [now rewrite Ascii.eqb_refl|].
  intros H. apply andb_true_iff in H as [Hx Ha]. apply negb_true_iff in Hx.
  now rewrite Hx, IH.
Qed.



Lemma split_until_app_l c a b :
  no_char c a = true -> split_until c (a ++ b) = (a ++ fst (split_until c b), snd (split_until c b)).
Proof.
  induction a as [|x a IH]; simpl; [now destruct (split_until c b)|].
  intros H. apply andb_true_iff in H as [Hx Ha]. apply negb_true_iff in Hx.
  rewrite Hx, IH by exact Ha. reflexivity.
Qed.

Lemma take_until_app_l c a b :
  no_char c a = true -> take_until c (a ++ b) = a ++ take_until c b.
Proof.
  induction a as [|x a IH]; simpl; [reflexivity|].
  intros H. apply andb_true_iff in H as [Hx Ha]. apply negb_true_iff in Hx.
  now rewrite Hx, IH.
Qed.

(** ** A reader of XML text

    [attr_value name s] is the value of the first attribute [name] of [s]
    (an attribute is preceded by a space); [elem_text start s] is the text
    content of the first element whose start tag begins with [start].
    They read the documents [play] writes, to show where each argument of
    [format!] ends up. *)

Definition attr_value (name s : string) : option string :=
  option_map (take_until dq) (after (" " ++ name ++ "=" ++ str1 dq) s).

Definition elem_text (start s : string) : option string :=
  match after start s with
  | Some r => option_map (take_until "<") (after ">" r)
  | None => None
  end.

(** A text that can stand inside an attribute value or an element of the
    documents without ending it: no less-than, greater-than, double quote
    or space.  URIs (RFC 3986) and MIME subtypes are such texts. *)
Definition attr_safe (s : string) : bool :=
  no_char "<" s && no_char ">" s && no_char dq s && no_char " " s.

Lemma attr_safe_chars s :
  attr_safe s = true ->
  no_char "<" s = true /\ no_char ">" s = true /\ no_char dq s = true /\ no_char " " s = true.
Proof. unfold attr_safe. rewrite !andb_true_iff. tauto. Qed.


(** ** Counting occurrences *)

Fixpoint occ (p s : string) {struct s} : nat :=
  (match strip_prefix p s with Some _ => 1 | None => 0 end) +
  match s with EmptyString => 0 | String _ s' => occ p s' end.

Lemma strip_prefix_app_some p a b r :
  strip_prefix p a = Some r -> strip_prefix p (a ++ b) = Some (r ++ b).
Proof.
  revert a. induction p as [|x p IH]; intros [|y a]; simpl; try discriminate.
  - now intros [= <-].
  - now intros [= <-].
  - destruct (Ascii.eqb x y); [apply IH | discriminate].
Qed.

(** Occurrences are superadditive over concatenation. *)
Lemma occ_app_ge p a b : p <> EmptyString -> occ p a + occ p b <= occ p (a ++ b).
Proof.
  intros Hp. induction a as [|x a IH]; simpl.
  - destruct p; [congruence|]. simpl. lia.
  - destruct (strip_prefix p (String x a)) eqn:E.
    + apply (strip_prefix_app_some _ _ b) in E. simpl in E. rewrite E. lia.
    + destruct (strip_prefix p (String x (a ++ b))); lia.
Qed.

Lemma occ_self p : p <> EmptyString -> 1 <= occ p p.
Proof.
  intros Hp. destruct p as [|x p]; [congruence|].
  pose proof (strip_prefix_app (String x p) EmptyString) as H.
  rewrite append_nil_r in H. unfold occ; fold occ. rewrite H. lia.
Qed.

(** A one-character pattern cannot straddle a concatenation. *)
Lemma occ_char_app c a b : occ (str1 c) (a ++ b) = occ (str1 c) a + occ (str1 c) b.
Proof.
  induction a as [|x a IH]; simpl; [reflexivity|].
  rewrite IH. destruct (Ascii.eqb c x); lia.
Qed.

Lemma occ_no_char c a : no_char c a = true -> occ (str1 c) a = 0.
Proof.
  induction a as [|x a IH]; simpl; [reflexivity|].
  intros H. apply andb_true_iff in H as [Hx Ha]. apply negb_true_iff in Hx.
  rewrite IH by exact Ha. destruct (Ascii.eqb_spec c x) as [->|]; [|reflexivity].
  now rewrite Ascii.eqb_refl in Hx.
Qed.

(** Matching [p] against [s] is decided inside [s]: it succeeds, or fails
    on a character of [s], without looking past its end. *)
Fixpoint prefix_decided (p s : string) : bool :=
  match p, s with
  | EmptyString, _ => true
  | String _ _, EmptyString => false
  | String a p', String b s' => if Ascii.eqb a b then prefix_decided p' s' else true
  end.

(** Every match attempt that starts in [s] is decided inside [s]. *)
Fixpoint occ_decided (p s : string) : bool :=
  match s with
  | EmptyString => true
  | String _ s' => prefix_decided p s && occ_decided p s'
  end.

Lemma occ_cons p x s :
  occ p (String x s) = (match strip_prefix p (String x s) with Some _ => 1 | None => 0 end) + occ p s.
Proof. reflexivity. Qed.

Lemma strip_prefix_decided p s b :
  prefix_decided p s = true ->
  strip_prefix p (s ++ b) = option_map (fun r => r ++ b) (strip_prefix p s).
Proof.
  revert s. induction p as [|x p IH]; intros [|y s]; simpl; try discriminate; [reflexivity|reflexivity|].
  destruct (Ascii.eqb x y); [apply IH | reflexivity].
Qed.

(** Occurrences add up over a concatenation whose left part decides every
    match starting in it. *)
Lemma occ_app_decided c p a b :
  occ_decided (String c p) a = true ->
  occ (String c p) (a ++ b) = occ (String c p) a + occ (String c p) b.
Proof.
  induction a as [|x a IH]; [reflexivity|].
  intros H. apply andb_true_iff in H as [Hx Ha].
  pose proof (strip_prefix_decided _ (String x a) b Hx) as E.
  change (String x a ++ b) with (String x (a ++ b)) in *.
  rewrite !occ_cons, E, IH by exact Ha.
  destruct (strip_prefix (String c p) (String x a)); simpl; lia.
Qed.

(** A text without the pattern's first character decides every match and
    holds none. *)
Lemma no_char_occ_decided c p a :
  no_char c a = true -> occ_decided (String c p) a = true /\ occ (String c p) a = 0.
Proof.
  induction a as [|x a IH]; [split; reflexivity|].
  intros H. apply andb_true_iff in H as [Hx Ha]. apply negb_true_iff in Hx.
  destruct (IH Ha) as [Hd Ho]. simpl. rewrite Ascii.eqb_sym, Hx, Hd, Ho. split; reflexivity.
Qed.

#[export] Hint Resolve occ_self occ_app_ge : dlna.

(** ** Transition sequences *)

Section Star.
Context {A : Type} (R : A -> A -> Prop).

Inductive star : A -> A -> Prop :=
| star_refl a : star a a
| star_step a b c : R a b -> star b c -> star a c.

Lemma star_one a b : R a b -> star a b.
Proof. intros H. apply (star_step a b b H (star_refl b)). Qed.

Lemma star_trans a b c : star a b -> star b c -> star a c.
Proof. induction 1 as [|x y z Hxy _ IH]; [tauto | intros H; exact (star_step x y c Hxy (IH H))]. Qed.

(** Sequences of exactly [n] transitions. *)
Inductive nsteps : nat -> A -> A -> Prop :=
| nsteps_refl a : nsteps 0 a a
| nsteps_step n a b c : R a b -> nsteps n b c -> nsteps (S n) a c.

(** A measure that every transition decreases bounds the length of every
    sequence. *)
Lemma nsteps_bound (m : A -> nat) :
  (forall a b, R a b -> m b < m a) -> forall n a b, nsteps n a b -> n + m b <= m a.
Proof.
  intros Hm n a b H. induction H as [a|n a b c Hab _ IH]; [lia|].
  pose proof (Hm a b Hab). lia.
Qed.

(** A state with no transition. *)
Definition irreducible (a : A) : Prop := forall b, ~ R a b.

End Star.

#[export] Hint Constructors star : dlna.
#[export] Hint Resolve star_one star_trans : dlna.

(** ** Tactics of the development *)

(** Read a document built from concrete literals and [attr_safe]
    arguments: compute through the literals, and skip each argument with
    [after_skip] or [take_until_app_l]. *)
Ltac read_back :=
  repeat match goal with
  | H : attr_safe _ = true |- _ => apply attr_safe_chars in H as (? & ? & ? & ?)
  end;
  repeat (simpl; first [ rewrite after_skip by assumption
                       | rewrite take_until_app_l by assumption ]);
  simpl; rewrite ?append_nil_r; try reflexivity.

(** Split a conjunction of [no_char] facts over concatenations. *)
Ltac no_char_split :=
  repeat match goal with
  | H : no_char _ (_ ++ _) = true |- _ => apply no_char_app_iff in H as [? ?]
  | H : _ /\ _ |- _ => destruct H
  end.
