(* ===== verification/Escape.v ===== *)
(** * XML attribute escaping ([xml::escape::escape_str_attribute])

    [dlna.rs] line 15 escapes the whole DIDL-Lite document with xml-rs's
    [escape_str_attribute] before it is embedded as the text of
    [<CurrentURIMetaData>].  xml-rs is a library the source only calls, so
    [escape_str_attribute] is modelled from xml-rs's attribute escape table
    ([Value::dispatch_for_attribute]): the seven characters less-than,
    greater-than, double quote, apostrophe, ampersand, line feed and
    carriage return become [&lt; &gt; &quot; &apos; &amp; &#xA; &#xD;] and
    every other character is copied.  Strings are UTF-8 byte strings; all
    the escaped characters are ASCII and no byte of a multi-byte UTF-8
    sequence is ASCII, so escaping byte by byte is escaping char by char.

    [unescape_attribute] is the other side: a reader of an XML attribute
    value (XML 1.0 section 3.3.3 and 4.6) that rejects a raw [<], decodes the
    five predefined entities and character references below 128, and fails
    on an unterminated or unknown reference.  The theorems show that the
    escaper's output is safe inside an attribute or element text (none of
    the seven characters is left), that reading it back gives the input, and
    the escaper's length bounds. *)

From Stdlib Require Import String Ascii List Bool Lia.
From S2P Require Import Prelude.
Import ListNotations.
Local Open Scope string_scope.

Module Escape.

(** ** The escaper *)

(** xml-rs [Value::dispatch_for_attribute]. *)
Definition escape_attribute_char (c : ascii) : option string :=
  if Ascii.eqb c "<" then Some "&lt;"
  else if Ascii.eqb c ">" then Some "&gt;"
  else if Ascii.eqb c dq then Some "&quot;"
  else if Ascii.eqb c "'" then Some "&apos;"
  else if Ascii.eqb c "&" then Some "&amp;"
  else if Ascii.eqb c nl then Some "&#xA;"
  else if Ascii.eqb c cr then Some "&#xD;"
  else None.

(** xml-rs [escape_str_attribute]: the [Cow] it returns is borrowed when
    nothing was escaped; its contents are the same either way. *)
Fixpoint escape_str_attribute (s : string) : string :=
  match s with
  | EmptyString => EmptyString
  | String c s' =>
      match escape_attribute_char c with
      | Some e => e ++ escape_str_attribute s'
      | None => String c (escape_str_attribute s')
      end
  end.

(** The characters the escaper replaces. *)
Definition special_chars : list ascii := ["<"; ">"; dq; "'"; "&"; nl; cr]%char.

(** The characters that cannot occur in its output: all but the ampersand,
    which the output keeps as the start of each reference. *)
Definition forbidden_chars : list ascii := ["<"; ">"; dq; "'"; nl; cr]%char.

Definition plain (s : string) : bool :=
  forallb (fun c => no_char c s) special_chars.

(** The bytes the escaper adds for a character: a reference replaces one
    byte by four ([&lt;], [&gt;]), five ([&amp;], [&#xA;], [&#xD;]) or six
    ([&quot;], [&apos;]). *)
Definition char_overhead (c : ascii) : nat :=
  if Ascii.eqb c "<" || Ascii.eqb c ">" then 3
  else if Ascii.eqb c dq || Ascii.eqb c "'" then 5
  else if Ascii.eqb c "&" || Ascii.eqb c nl || Ascii.eqb c cr then 4
  else 0.

Fixpoint escape_overhead (s : string) : nat :=
  match s with
  | EmptyString => 0
  | String c s' => char_overhead c + escape_overhead s'
  end.

(** ** The reader *)

Definition hex_digit (c : ascii) : option nat :=
  let n := nat_of_ascii c in
  if Nat.leb 48 n && Nat.leb n 57 then Some (n - 48)
  else if Nat.leb 65 n && Nat.leb n 70 then Some (n - 55)
  else if Nat.leb 97 n && Nat.leb n 102 then Some (n - 87)
  else None.

Definition dec_digit (c : ascii) : option nat :=
  let n := nat_of_ascii c in
  if Nat.leb 48 n && Nat.leb n 57 then Some (n - 48) else None.

(** The value of a non-empty digit string in a base. *)
Fixpoint digits_value (base : nat) (digit : ascii -> option nat) (acc : nat) (s : string)
  : option nat :=
  match s with
  | EmptyString => Some acc
  | String c s' =>
      match digit c with
      | Some d => digits_value base digit (acc * base + d) s'
      | None => None
      end
  end.

Definition char_ref (base : nat) (digit : ascii -> option nat) (s : string) : option ascii :=
  match s with
  | EmptyString => None
  | _ => match digits_value base digit 0 s with
         | Some n => if Nat.ltb n 128 then Some (ascii_of_nat n) else None
         | None => None
         end
  end.

(** The character an entity or character reference [&name;] stands for. *)
Definition decode_entity (name : string) : option ascii :=
  match name with
  | "lt" => Some "<"%char
  | "gt" => Some ">"%char
  | "quot" => Some dq
  | "apos" => Some "'"%char
  | "amp" => Some "&"%char
  | String "#" (String "x" digits) => char_ref 16 hex_digit digits
  | String "#" digits => char_ref 10 dec_digit digits
  | _ => None
  end.

(** The reader is a two-state machine over the characters: outside a
    reference ([None]) or inside one whose name so far is [name]. *)
Fixpoint unescape_go (ent : option string) (s : string) : option string :=
  match s, ent with
  | EmptyString, None => Some EmptyString
  | EmptyString, Some _ => None
  | String c s', None =>
      if Ascii.eqb c "&" then unescape_go (Some EmptyString) s'
      else if Ascii.eqb c "<" then None
      else option_map (String c) (unescape_go None s')
  | String c s', Some name =>
      if Ascii.eqb c ";" then
        match decode_entity name with
        | Some d => option_map (String d) (unescape_go None s')
        | None => None
        end
      else unescape_go (Some (name ++ str1 c)) s'
  end.

Definition unescape_attribute (s : string) : option string := unescape_go None s.

(** ** Lemmas *)

Lemma escape_app a b :
  escape_str_attribute (a ++ b) = escape_str_attribute a ++ escape_str_attribute b.
Proof.
  induction a as [|c a IH]; simpl; [reflexivity|].
  destruct (escape_attribute_char c); rewrite IH; [symmetry; apply append_assoc | reflexivity].
Qed.

#[export] Hint Rewrite escape_app : dlna_str.

(** Each replacement is a reference [&name;] that decodes to the character. *)
Lemma escape_attribute_char_ref c e :
  escape_attribute_char c = Some e ->
  exists name, e = "&" ++ name ++ ";" /\ no_char ";" name = true /\
               decode_entity name = Some c.
Proof.
  unfold escape_attribute_char.
  repeat match goal with
         | |- context [Ascii.eqb c ?k] => destruct (Ascii.eqb_spec c k) as [->|_]
         end; intros H; inversion H; subst;
  [exists "lt" | exists "gt" | exists "quot" | exists "apos" | exists "amp"
  | exists "#xA" | exists "#xD"]; repeat split.
Qed.

Lemma escape_attribute_char_none c :
  escape_attribute_char c = None -> forall k, In k special_chars -> c <> k.
Proof.
  unfold escape_attribute_char.
  repeat match goal with
         | |- context [Ascii.eqb c ?k] => destruct (Ascii.eqb_spec c k) as [->|?]
         end; intros H; try discriminate.
  intros k Hk ->. simpl in Hk. intuition congruence.
Qed.

Lemma unescape_go_ref name e s :
  no_char ";" e = true ->
  unescape_go (Some name) (e ++ String ";" s) =
  match decode_entity (name ++ e) with
  | Some d => option_map (String d) (unescape_go None s)
  | None => None
  end.
Proof.
  revert name. induction e as [|c e IH]; intros name H; simpl.
  - now rewrite append_nil_r.
  - apply andb_true_iff in H as [Hc He]. apply negb_true_iff in Hc.
    rewrite Hc, IH by exact He. now rewrite append_assoc.
Qed.

Lemma escape_attribute_char_special c :
  In c special_chars -> exists e, escape_attribute_char c = Some e.
Proof. intros H. repeat destruct H as [<-|H]; try (eexists; reflexivity). destruct H. Qed.

Lemma no_char_escape_piece k c :
  In k forbidden_chars ->
  no_char k (match escape_attribute_char c with Some e => e | None => str1 c end) = true.
Proof.
  intros Hk. destruct (escape_attribute_char c) as [e|] eqn:E.
  - destruct (escape_attribute_char_ref _ _ E) as (name & -> & _ & Hd).
    unfold escape_attribute_char in E.
    repeat match type of E with
           | context [Ascii.eqb c ?x] => destruct (Ascii.eqb_spec c x)
           end; inversion E; subst;
    repeat destruct Hk as [<-|Hk]; try reflexivity; destruct Hk.
  - simpl. rewrite andb_true_r. apply negb_true_iff.
    destruct (Ascii.eqb_spec c k); [|reflexivity].
    exfalso. apply (escape_attribute_char_none c E k); [|exact e].
    repeat destruct Hk as [<-|Hk]; simpl; tauto.
Qed.


Lemma escape_attribute_char_length c e :
  escape_attribute_char c = Some e -> 4 <= String.length e <= 6.
Proof.
  unfold escape_attribute_char.
  repeat match goal with
         | |- context [Ascii.eqb c ?k] => destruct (Ascii.eqb_spec c k)
         end; intros H; inversion H; simpl; lia.
Qed.

Lemma escape_attribute_char_none_iff c :
  escape_attribute_char c = None <-> ~ In c special_chars.
Proof.
  split.
  - intros H Hin. exact (escape_attribute_char_none c H c Hin eq_refl).
  - intros Hn. destruct (escape_attribute_char c) eqn:E; [|reflexivity].
    exfalso. apply Hn. unfold escape_attribute_char in E.
    repeat match type of E with
           | context [Ascii.eqb c ?k] => destruct (Ascii.eqb_spec c k) as [->|_]
           end; try discriminate; simpl; tauto.
Qed.

Lemma no_char_cons k c s : no_char k (String c s) = true <-> c <> k /\ no_char k s = true.
Proof.
  simpl. rewrite andb_true_iff, negb_true_iff.
  destruct (Ascii.eqb_spec c k); intuition congruence.
Qed.

Lemma plain_cons c s : plain (String c s) = true <-> ~ In c special_chars /\ plain s = true.
Proof.
  unfold plain. rewrite !forallb_forall. split.
  - intros H. split.
    + intros Hin. apply (proj1 (no_char_cons c c s) (H c Hin)). reflexivity.
    + intros k Hk. exact (proj2 (proj1 (no_char_cons k c s) (H k Hk))).
  - intros [Hn H] k Hk. apply no_char_cons. split; [|auto].
    intros ->. exact (Hn Hk).
Qed.

(** ** Theorems *)

(** The escaper's output contains no less-than, greater-than, double quote,
    apostrophe, line feed or carriage return. *)
Theorem escape_no_special s k :
  In k forbidden_chars -> no_char k (escape_str_attribute s) = true.
Proof.
  intros Hk. induction s as [|c s IH]; [reflexivity|]. simpl.
  pose proof (no_char_escape_piece k c Hk) as Hp.
  destruct (escape_attribute_char c) as [e|].
  - rewrite no_char_app, Hp. exact IH.
  - simpl in Hp |- *. rewrite andb_true_r in Hp. now rewrite Hp, IH.
Qed.

(** Reading the escaped text back as an attribute value gives the input. *)
Theorem unescape_escape s : unescape_attribute (escape_str_attribute s) = Some s.
Proof.
  unfold unescape_attribute.
  induction s as [|c s IH]; [reflexivity|]. simpl.
  destruct (escape_attribute_char c) as [e|] eqn:E.
  - destruct (escape_attribute_char_ref _ _ E) as (name & -> & Hn & Hd).
    simpl. rewrite append_assoc. simpl.
    rewrite unescape_go_ref by exact Hn. simpl. now rewrite Hd, IH.
  - simpl. pose proof (escape_attribute_char_none c E) as Hs.
    destruct (Ascii.eqb_spec c "&") as [->|_]; [exfalso; apply (Hs "&"%char); simpl; tauto|].
    destruct (Ascii.eqb_spec c "<") as [->|_]; [exfalso; apply (Hs "<"%char); simpl; tauto|].
    now rewrite IH.
Qed.

(** The escaper is injective. *)
Corollary escape_injective s t :
  escape_str_attribute s = escape_str_attribute t -> s = t.
Proof.
  intros H. apply (f_equal unescape_attribute) in H.
  rewrite !unescape_escape in H. congruence.
Qed.

(** Escaping never shortens a text and at most multiplies its length by
    six ([&quot;] and [&apos;] replace one byte by six). *)
Theorem escape_length_bounds s :
  String.length s <= String.length (escape_str_attribute s) <= 6 * String.length s.
Proof.
  induction s as [|c s IH]; simpl; [lia|].
  destruct (escape_attribute_char c) as [e|] eqn:E; simpl; [|lia].
  rewrite length_append. pose proof (escape_attribute_char_length c e E). lia.
Qed.

(** A text without ampersand or less-than reads back as itself. *)
Lemma unescape_plain s :
  no_char "&" s = true -> no_char "<" s = true -> unescape_attribute s = Some s.
Proof.
  unfold unescape_attribute. induction s as [|c s IH]; [reflexivity|].
  intros Ha Hl. apply no_char_cons in Ha as [Ha Ha']. apply no_char_cons in Hl as [Hl Hl'].
  simpl. destruct (Ascii.eqb_spec c "&"); [congruence|].
  destruct (Ascii.eqb_spec c "<"); [congruence|]. now rewrite IH.
Qed.

Lemma escape_length_ge s : String.length s <= String.length (escape_str_attribute s).
Proof.
  induction s as [|c s IH]; simpl; [lia|].
  destruct (escape_attribute_char c) as [e|] eqn:E; simpl; [|lia].
  rewrite length_append. pose proof (escape_attribute_char_length c e E). lia.
Qed.

Lemma escape_nonempty s : s <> EmptyString -> escape_str_attribute s <> EmptyString.
Proof.
  intros Hs He. apply Hs. pose proof (escape_length_ge s) as H.
  rewrite He in H. destruct s; [reflexivity | simpl in H; lia].
Qed.

(** A text is returned unchanged (the borrowed case of the [Cow]) exactly
    when it contains none of the seven special characters. *)
Theorem escape_plain_id s : escape_str_attribute s = s <-> plain s = true.
Proof.
  induction s as [|c s IH]; [split; reflexivity|]. rewrite plain_cons. simpl.
  destruct (escape_attribute_char c) as [e|] eqn:E.
  - split.
    + intros H. exfalso. apply (f_equal String.length) in H.
      rewrite length_append in H. simpl in H.
      pose proof (escape_attribute_char_length c e E).
      pose proof (escape_length_ge s). lia.
    + intros [Hn _]. apply escape_attribute_char_none_iff in Hn. congruence.
  - rewrite <- IH. apply escape_attribute_char_none_iff in E. split.
    + intros H. split; [exact E | congruence].
    + intros [_ ->]. reflexivity.
Qed.

(** ** Witnesses *)

Lemma escape_injective_witness : "a<b" = "a<b".
Proof. apply (escape_injective "a<b" "a<b"). reflexivity. Defined.

(** The escaper's output is the text and, for each special character, the
    bytes its reference adds. *)
Lemma escape_length_exact s :
  String.length (escape_str_attribute s) = String.length s + escape_overhead s.
Proof.
  induction s as [|c s IH]; [reflexivity|]. cbn [escape_str_attribute escape_overhead].
  unfold char_overhead, escape_attribute_char.
  repeat match goal with
         | |- context [Ascii.eqb c ?k] => destruct (Ascii.eqb_spec c k) as [->|?]
         end; cbn -[escape_str_attribute]; rewrite ?IH; lia.
Qed.

End Escape.
