(* ===== verification/Format.v ===== *)
(** * Rust's [format!] with literal templates

    [dlna.rs] builds both XML documents with [format!]: the DIDL-Lite
    metadata with the named arguments [{type_video}], [{uri_sub}],
    [{type_sub}], [{uri_video}] (lines 16-38) and the [SetAVTransportURI]
    body with two positional [{}] (lines 44-51).  rustc parses the format
    string at compile time into literal text and argument slots
    ([parse_format], for the part of [std::fmt]'s grammar the source uses);
    [template] is that parsed form, and [render] is the run-time
    substitution.  rustc rejects a call with a slot without argument
    ([bound]) or an argument no slot uses ([uses_all]); [format] is the
    whole call, [None] when rustc rejects it. *)

From Stdlib Require Import String Ascii List Bool Lia.
From S2P Require Import Prelude.
Import ListNotations.
Local Open Scope string_scope.

Module Format.

Inductive piece : Type :=
| Lit (s : string)          (** literal text of the template *)
| Named (name : string)     (** [{name}] *)
| Positional (i : nat).     (** the [i]-th [{}] *)

Definition template := list piece.

Record args : Type := mkArgs {
  positional : list string;
  named : list (string * string)
}.

Fixpoint lookup_named (n : string) (l : list (string * string)) : option string :=
  match l with
  | [] => None
  | (k, v) :: l' => if String.eqb k n then Some v else lookup_named n l'
  end.

Definition arg_value (a : args) (p : piece) : option string :=
  match p with
  | Lit s => Some s
  | Named n => lookup_named n (named a)
  | Positional i => nth_error (positional a) i
  end.

(** The text a piece contributes; an unbound slot, which rustc rejects,
    contributes nothing. *)
Definition piece_text (a : args) (p : piece) : string := unwrap_or (arg_value a p) "".
Arguments piece_text a p /.

Fixpoint render (a : args) (t : template) : string :=
  match t with
  | [] => ""
  | p :: t' => piece_text a p ++ render a t'
  end.

(** rustc's check: every slot of the template has an argument. *)
Definition bound (a : args) (t : template) : bool :=
  forallb (fun p => match arg_value a p with Some _ => true | None => false end) t.

(** The number of slots of a template that name [n]. *)
Definition count_named (n : string) (t : template) : nat :=
  List.length (filter (fun p => match p with Named m => String.eqb m n | _ => false end) t).

(** ** rustc's parser of format strings

    The subset of [std::fmt]'s grammar the source uses: [{{] and [}}]
    stand for a brace, [{}] is the next positional argument, [{n}] the
    [n]-th and [{name}] a named one.  A format spec ([{x:?}]) is not used by
    the source and is rejected, as is an unmatched brace. *)

Inductive fmode : Type :=
| FLit                   (** literal text *)
| FOpen                  (** after [{] *)
| FArg (arg : string)    (** inside [{...}] *)
| FClose.                (** after a [}] of literal text *)

Definition is_digit (c : ascii) : bool :=
  Nat.leb 48 (nat_of_ascii c) && Nat.leb (nat_of_ascii c) 57.

Definition is_ident_start (c : ascii) : bool :=
  (Nat.leb 97 (nat_of_ascii c) && Nat.leb (nat_of_ascii c) 122) ||
  (Nat.leb 65 (nat_of_ascii c) && Nat.leb (nat_of_ascii c) 90) || Ascii.eqb c "_".

Fixpoint all_ascii (f : ascii -> bool) (s : string) : bool :=
  match s with EmptyString => true | String c s' => f c && all_ascii f s' end.

Fixpoint digits_nat (acc : nat) (s : string) : nat :=
  match s with
  | EmptyString => acc
  | String c s' => digits_nat (10 * acc + (nat_of_ascii c - 48)) s'
  end.

(** The argument of [{arg}]: an index or an identifier. *)
Definition arg_piece (a : string) : option piece :=
  match a with
  | EmptyString => None
  | String c a' =>
      if all_ascii is_digit a then Some (Positional (digits_nat 0 a))
      else if is_ident_start c && all_ascii (fun d => is_ident_start d || is_digit d) a'
      then Some (Named a)
      else None
  end.

(** A slot after the literal text read so far (none when it is empty). *)
Definition cons_slot (lit : string) (p : piece) (rest : option template) : option template :=
  option_map (fun t => match lit with EmptyString => p :: t | _ => Lit lit :: p :: t end) rest.

Fixpoint parse_go (m : fmode) (next : nat) (lit s : string) : option template :=
  match s with
  | EmptyString =>
      match m with
      | FLit => Some (match lit with EmptyString => [] | _ => [Lit lit] end)
      | _ => None
      end
  | String c s' =>
      match m with
      | FLit =>
          if Ascii.eqb c "{" then parse_go FOpen next lit s'
          else if Ascii.eqb c "}" then parse_go FClose next lit s'
          else parse_go FLit next (lit ++ str1 c) s'
      | FOpen =>
          if Ascii.eqb c "{" then parse_go FLit next (lit ++ "{") s'
          else if Ascii.eqb c "}" then cons_slot lit (Positional next) (parse_go FLit (S next) "" s')
          else parse_go (FArg (str1 c)) next lit s'
      | FArg a =>
          if Ascii.eqb c "}" then
            match arg_piece a with
            | Some p => cons_slot lit p (parse_go FLit next "" s')
            | None => None
            end
          else if Ascii.eqb c "{" then None
          else parse_go (FArg (a ++ str1 c)) next lit s'
      | FClose => if Ascii.eqb c "}" then parse_go FLit next (lit ++ "}") s' else None
      end
  end.

Definition parse_format (s : string) : option template := parse_go FLit 0 "" s.

(** rustc's other checks of a [format!] call: every slot has its argument
    ([bound]) and every argument is used by a slot. *)
Definition uses_all (a : args) (t : template) : bool :=
  forallb (fun i => existsb (fun p => match p with Positional j => Nat.eqb i j | _ => false end) t)
          (seq 0 (List.length (positional a))) &&
  forallb (fun kv => existsb (fun p => match p with Named m => String.eqb m (fst kv) | _ => false end) t)
          (named a).

(** [format!(s, args)]: [None] when rustc rejects the call, otherwise the
    string it builds at run time. *)
Definition format (s : string) (a : args) : option string :=
  match parse_format s with
  | Some t => if bound a t && uses_all a t then Some (render a t) else None
  | None => None
  end.

(** ** Lemmas *)

Lemma render_app a (t1 t2 : template) : render a (t1 ++ t2)%list = render a t1 ++ render a t2.
Proof.
  induction t1 as [|p t1 IH]; simpl; [reflexivity|].
  now rewrite IH, append_assoc.
Qed.

#[export] Hint Rewrite render_app : dlna_str.

(** A character absent from every piece's text is absent from the render. *)
Lemma render_no_char c a t :
  Forall (fun p => no_char c (piece_text a p) = true) t -> no_char c (render a t) = true.
Proof.
  induction 1 as [|p t Hp _ IH]; [reflexivity|]. cbn [render].
  now rewrite no_char_app, Hp, IH.
Qed.

(** Each slot naming [n] contributes at least one occurrence of its value. *)
Lemma render_occ_named a t n v :
  lookup_named n (named a) = Some v -> v <> EmptyString ->
  count_named n t <= occ v (render a t).
Proof.
  intros Hv Hne. unfold count_named.
  induction t as [|p t IH]; cbn [render filter List.length]; [lia|].
  pose proof (occ_app_ge v (piece_text a p) (render a t) Hne) as Hge.
  destruct p as [s|name|i]; cbn [filter]; try lia.
  destruct (String.eqb_spec name n) as [->|_]; cbn [List.length]; [|lia].
  assert (Hpt : piece_text a (Named n) = v) by (cbn; now rewrite Hv).
  rewrite Hpt in Hge |- *. pose proof (occ_self v Hne). lia.
Qed.

(** Occurrences of a pattern in a render add up piece by piece when every
    piece decides the matches starting in it. *)
Lemma render_occ_decided c p a t :
  Forall (fun pc => occ_decided (String c p) (piece_text a pc) = true) t ->
  occ (String c p) (render a t) =
  fold_right plus 0 (map (fun pc => occ (String c p) (piece_text a pc)) t).
Proof.
  induction 1 as [|pc t Hpc _ IH]; [reflexivity|]. cbn [render map fold_right].
  rewrite occ_app_decided by exact Hpc. now rewrite IH.
Qed.

End Format.
