(* ===== verification/XmlWf.v ===== *)
(** * Well-formedness of the XML text [play] produces

    The spec requires each control payload to be "a well-formed XML
    fragment" (section 3) and the escaped metadata to be embeddable
    "without breaking the outer document's well-formedness" (section 8).
    This file gives that requirement an executable meaning: [xml_char] is
    a recognizer of the well-formedness constraints of XML 1.0 for the part
    of the language the payloads use (elements with their start, end and
    empty-element tags, double-quoted attributes, character data, entity
    and character references), written as a state machine over the bytes
    with the stack of open elements.  [fragment_wf] accepts element content
    (what a SOAP action element holds), [document_wf] a document: one root
    element and only white space around it.

    The recognizer is stricter than XML, never looser: it rejects comments,
    processing instructions, CDATA sections, declarations, single-quoted
    attributes, white space around [=] and non-ASCII names, none of which
    occurs in the payloads.  It does not check that character references
    denote legal characters.

    The lemmas let the theorems of [Metadata] and [Payload] check a
    template once for all arguments: text without [<], [&] or a double
    quote, and every output of [escape_str_attribute], leave the
    recognizer's state unchanged inside character data and inside an
    attribute value ([inert]), so the state after a rendered template is
    the state [xml_run_tmpl] computes from its literal pieces alone. *)

From Stdlib Require Import String Ascii List Bool Lia.
From S2P Require Import Prelude Escape Format.
Import ListNotations.
Local Open Scope string_scope.

Module XmlWf.
Import Format Escape.

(** ** Character classes *)

Definition is_space (c : ascii) : bool :=
  Ascii.eqb c " " || Ascii.eqb c "009"%char || Ascii.eqb c nl || Ascii.eqb c cr.

Definition in_range (lo hi c : ascii) : bool :=
  Nat.leb (nat_of_ascii lo) (nat_of_ascii c) && Nat.leb (nat_of_ascii c) (nat_of_ascii hi).

Definition is_name_start (c : ascii) : bool :=
  in_range "a" "z" c || in_range "A" "Z" c || Ascii.eqb c "_" || Ascii.eqb c ":".

Definition is_name_char (c : ascii) : bool :=
  is_name_start c || in_range "0" "9" c || Ascii.eqb c "-" || Ascii.eqb c ".".

Definition is_hex (c : ascii) : bool :=
  in_range "0" "9" c || in_range "a" "f" c || in_range "A" "F" c.

Fixpoint all_chars (f : ascii -> bool) (s : string) : bool :=
  match s with
  | EmptyString => true
  | String c s' => f c && all_chars f s'
  end.

(** The name of a reference [&name;]: one of the five predefined entities
    (a payload has no DTD to declare others), or [#] and decimal digits, or
    [#x] and hexadecimal digits. *)
Definition valid_ref (name : string) : bool :=
  existsb (String.eqb name) ["lt"; "gt"; "amp"; "quot"; "apos"] ||
  match name with
  | String h (String x ds) =>
      Ascii.eqb h "#" &&
      (if Ascii.eqb x "x"
       then match ds with EmptyString => false | _ => all_chars is_hex ds end
       else all_chars (in_range "0" "9") (String x ds))
  | _ => false
  end.

(** ** The recognizer *)

(** Where the recognizer is: [tag] is the element whose start tag is being
    read and [attrs] the attribute names it has so far. *)
Inductive mode : Type :=
| Text                                                 (** character data *)
| TextRef (name : string)                              (** after [&] in data *)
| Lt                                                   (** after [<] *)
| StartName (tag : string)                             (** a start-tag name *)
| InTag (tag : string) (attrs : list string)           (** between attributes *)
| AttrName (tag : string) (attrs : list string) (a : string)
| AttrEq (tag : string) (attrs : list string)          (** after [=] *)
| AttrVal (tag : string) (attrs : list string)         (** in a quoted value *)
| AttrRef (tag : string) (attrs : list string) (name : string)
| AfterVal (tag : string) (attrs : list string)        (** after the closing quote *)
| EmptyEnd (tag : string)                              (** after [/] in a start tag *)
| EndName (name : string)                              (** after [</] *)
| EndTail (name : string)                              (** white space in an end tag *)
| Bad.                                                 (** not well formed *)

(** The state: the mode, the stack of open elements (innermost first), the
    number of top-level elements and whether non-blank character data
    occurred outside every element. *)
Record xstate : Type := mkX {
  mode_of : mode;
  stack : list string;
  roots : nat;
  top_text : bool
}.

Definition xml_init : xstate := mkX Text [] 0 false.

Definition with_mode (st : xstate) (m : mode) : xstate :=
  mkX m (stack st) (roots st) (top_text st).

(** Character data outside every element is recorded unless blank. *)
Definition note_text (st : xstate) (c : ascii) : xstate :=
  match stack st with
  | [] => if is_space c then st else mkX (mode_of st) [] (roots st) true
  | _ :: _ => st
  end.

Definition count_root (st : xstate) : nat :=
  match stack st with [] => S (roots st) | _ :: _ => roots st end.

(** The end of a start tag opens the element. *)
Definition push (st : xstate) (t : string) : xstate :=
  mkX Text (t :: stack st) (count_root st) (top_text st).

(** The end of an empty-element tag opens and closes it. *)
Definition empty_elem (st : xstate) : xstate :=
  mkX Text (stack st) (count_root st) (top_text st).

(** An end tag closes the innermost open element, which must have its name. *)
Definition pop (st : xstate) (n : string) : xstate :=
  match stack st with
  | t :: stk => if String.eqb t n then mkX Text stk (roots st) (top_text st) else with_mode st Bad
  | [] => with_mode st Bad
  end.

Definition snoc (s : string) (c : ascii) : string := s ++ str1 c.

Definition xml_char (st : xstate) (c : ascii) : xstate :=
  let go := with_mode st in
  match mode_of st with
  | Text =>
      if Ascii.eqb c "<" then go Lt
      else if Ascii.eqb c "&" then with_mode (note_text st c) (TextRef "")
      else note_text st c
  | TextRef n =>
      if Ascii.eqb c ";" then (if valid_ref n then go Text else go Bad)
      else if is_name_char c || Ascii.eqb c "#" then go (TextRef (snoc n c))
      else go Bad
  | Lt =>
      if Ascii.eqb c "/" then go (EndName "")
      else if is_name_start c then go (StartName (str1 c))
      else go Bad
  | StartName t =>
      if is_name_char c then go (StartName (snoc t c))
      else if is_space c then go (InTag t [])
      else if Ascii.eqb c ">" then push st t
      else if Ascii.eqb c "/" then go (EmptyEnd t)
      else go Bad
  | InTag t atts =>
      if is_space c then st
      else if Ascii.eqb c ">" then push st t
      else if Ascii.eqb c "/" then go (EmptyEnd t)
      else if is_name_start c then go (AttrName t atts (str1 c))
      else go Bad
  | AttrName t atts a =>
      if is_name_char c then go (AttrName t atts (snoc a c))
      else if Ascii.eqb c "=" then
        (if existsb (String.eqb a) atts then go Bad else go (AttrEq t (a :: atts)))
      else go Bad
  | AttrEq t atts => if Ascii.eqb c dq then go (AttrVal t atts) else go Bad
  | AttrVal t atts =>
      if Ascii.eqb c dq then go (AfterVal t atts)
      else if Ascii.eqb c "<" then go Bad
      else if Ascii.eqb c "&" then go (AttrRef t atts "")
      else st
  | AttrRef t atts n =>
      if Ascii.eqb c ";" then (if valid_ref n then go (AttrVal t atts) else go Bad)
      else if is_name_char c || Ascii.eqb c "#" then go (AttrRef t atts (snoc n c))
      else go Bad
  | AfterVal t atts =>
      if is_space c then go (InTag t atts)
      else if Ascii.eqb c ">" then push st t
      else if Ascii.eqb c "/" then go (EmptyEnd t)
      else go Bad
  | EmptyEnd t => if Ascii.eqb c ">" then empty_elem st else go Bad
  | EndName n =>
      if (match n with EmptyString => is_name_start c | _ => is_name_char c end)
      then go (EndName (snoc n c))
      else if Ascii.eqb c ">" then pop st n
      else if is_space c then go (EndTail n)
      else go Bad
  | EndTail n =>
      if is_space c then st
      else if Ascii.eqb c ">" then pop st n
      else go Bad
  | Bad => st
  end.

Fixpoint xml_run (st : xstate) (s : string) : xstate :=
  match s with
  | EmptyString => st
  | String c s' => xml_run (xml_char st c) s'
  end.

(** Element content: every element closed, no tag or reference left open. *)
Definition fragment_ok (st : xstate) : bool :=
  match st with mkX Text [] _ _ => true | _ => false end.

(** A document: moreover exactly one root and no text outside it. *)
Definition document_ok (st : xstate) : bool :=
  match st with mkX Text [] 1 false => true | _ => false end.

Definition fragment_wf (s : string) : bool := fragment_ok (xml_run xml_init s).
Definition document_wf (s : string) : bool := document_ok (xml_run xml_init s).

(** Text that cannot change the structure of the text around it. *)
Definition markup_free (s : string) : bool :=
  no_char "<" s && no_char "&" s && no_char dq s.

(** The states in which such text is passed over: character data inside
    an element, and an attribute value. *)
Definition inert_state (st : xstate) : bool :=
  match mode_of st, stack st with
  | Text, _ :: _ => true
  | AttrVal _ _, _ => true
  | _, _ => false
  end.

Definition inert (s : string) : Prop :=
  forall st, inert_state st = true -> xml_run st s = st.

(** The states inside a reference (or already failed). *)
Definition in_ref (st : xstate) : bool :=
  match mode_of st with
  | TextRef _ | AttrRef _ _ _ | Bad => true
  | _ => false
  end.

(** The recognizer run over a template whose slots are inert: [None] when
    a slot is in a state where its text could matter. *)
Fixpoint xml_run_tmpl (st : xstate) (t : template) : option xstate :=
  match t with
  | [] => Some st
  | Lit s :: t' => xml_run_tmpl (xml_run st s) t'
  | _ :: t' => if inert_state st then xml_run_tmpl st t' else None
  end.

Definition slots_inert (a : args) (t : template) : Prop :=
  Forall (fun p => match p with Lit _ => True | _ => inert (piece_text a p) end) t.

(** ** Lemmas *)

Lemma xml_run_app st a b : xml_run st (a ++ b) = xml_run (xml_run st a) b.
Proof. revert st. induction a as [|c a IH]; intros st; simpl; [reflexivity | apply IH]. Qed.

#[export] Hint Rewrite xml_run_app : dlna_str.

(** A character that is not [<], [&] or a double quote is passed over in
    an inert state. *)
Lemma xml_char_inert st c :
  inert_state st = true -> Ascii.eqb c "<" = false -> Ascii.eqb c "&" = false ->
  Ascii.eqb c dq = false -> xml_char st c = st.
Proof.
  destruct st as [m stk r tt]; unfold inert_state, xml_char, note_text; cbn [mode_of stack].
  intros Hst Hlt Hamp Hdq. rewrite Hlt, Hamp.
  destruct m; try discriminate; [now destruct stk | now rewrite Hdq].
Qed.

Lemma markup_free_inert s : markup_free s = true -> inert s.
Proof.
  unfold markup_free, inert. induction s as [|c s IH]; intros Hs st Hst; [reflexivity|].
  cbn [no_char] in Hs. rewrite !andb_true_iff, !negb_true_iff in Hs.
  destruct Hs as [[[Hlt Hs1] [Hamp Hs2]] [Hdq Hs3]].
  cbn [xml_run]. rewrite xml_char_inert by assumption.
  apply IH; [now rewrite Hs1, Hs2, Hs3 | exact Hst].
Qed.

(** Each reference the escaper writes is passed over in an inert state. *)
Lemma escape_piece_inert c e : escape_attribute_char c = Some e -> inert e.
Proof.
  intros E [m stk r tt] Hst. unfold escape_attribute_char in E.
  repeat match type of E with
         | context [Ascii.eqb c ?x] => destruct (Ascii.eqb c x)
         end; inversion E; subst;
  destruct m; try discriminate; try (destruct stk; [discriminate|]); reflexivity.
Qed.

(** What [escape_str_attribute] writes is inert. *)
Lemma escape_inert s : inert (escape_str_attribute s).
Proof.
  induction s as [|c s IH]; intros st Hst; [reflexivity|]. cbn [escape_str_attribute].
  destruct (escape_attribute_char c) as [e|] eqn:E.
  - rewrite xml_run_app, (escape_piece_inert c e E st Hst). now apply IH.
  - cbn [xml_run]. pose proof (escape_attribute_char_none c E) as Hn.
    rewrite xml_char_inert; [now apply IH | exact Hst | ..];
      apply Ascii.eqb_neq, Hn; simpl; tauto.
Qed.

#[export] Hint Resolve markup_free_inert escape_inert : dlna.

(** The recognizer over a rendered template is the recognizer over its
    literal pieces, when each slot is inert. *)
Lemma xml_run_render a t st st' :
  slots_inert a t -> xml_run_tmpl st t = Some st' -> xml_run st (render a t) = st'.
Proof.
  intros Ht. revert st. induction Ht as [|p t Hp _ IH]; intros st E; cbn [render].
  - now inversion E.
  - rewrite xml_run_app. destruct p as [s|n|i]; cbn [xml_run_tmpl] in E;
      [now apply IH | ..];
      destruct (inert_state st) eqn:Hst; try discriminate; rewrite (Hp st Hst); now apply IH.
Qed.

Lemma fragment_wf_render a t :
  slots_inert a t ->
  match xml_run_tmpl xml_init t with Some st => fragment_ok st | None => false end = true ->
  fragment_wf (render a t) = true.
Proof.
  intros Ht E. destruct (xml_run_tmpl xml_init t) eqn:R; [|discriminate].
  unfold fragment_wf. now rewrite (xml_run_render a t _ _ Ht R).
Qed.

Lemma document_wf_render a t :
  slots_inert a t ->
  match xml_run_tmpl xml_init t with Some st => document_ok st | None => false end = true ->
  document_wf (render a t) = true.
Proof.
  intros Ht E. destruct (xml_run_tmpl xml_init t) eqn:R; [|discriminate].
  unfold document_wf. now rewrite (xml_run_render a t _ _ Ht R).
Qed.

(** ** Unterminated references *)

Lemma xml_run_bad st s : mode_of st = Bad -> xml_run st s = st.
Proof.
  revert st. induction s as [|c s IH]; intros st Hb; [reflexivity|].
  cbn [xml_run]. unfold xml_char at 1. rewrite Hb. now apply IH.
Qed.

(** Inside a reference, text without [;] keeps the recognizer inside it. *)
Lemma ref_stays st b : in_ref st = true -> no_char ";" b = true -> in_ref (xml_run st b) = true.
Proof.
  revert st. induction b as [|c b IH]; intros st Hst Hb; [exact Hst|].
  cbn [no_char] in Hb. apply andb_true_iff in Hb as [Hc Hb]. apply negb_true_iff in Hc.
  cbn [xml_run]. apply IH; [|exact Hb].
  destruct st as [m stk r tt]; destruct m; try discriminate; unfold xml_char; cbn;
    rewrite ?Hc; try reflexivity;
    destruct (is_name_char c || Ascii.eqb c "#"); reflexivity.
Qed.

(** A character that cannot continue a reference fails it. *)
Lemma ref_breaks st c :
  in_ref st = true -> Ascii.eqb c ";" = false -> (is_name_char c || Ascii.eqb c "#") = false ->
  mode_of (xml_char st c) = Bad.
Proof.
  destruct st as [m stk r tt]; destruct m; try discriminate; intros _ Hc Hn;
    unfold xml_char; cbn; rewrite ?Hc, ?Hn; reflexivity.
Qed.

(** An ampersand in text or in an attribute value, followed by no [;]
    before a character that cannot be part of a reference, makes the text
    ill-formed for good. *)
Lemma unterminated_ref st a b c rest :
  inert_state st = true -> markup_free a = true -> no_char ";" b = true ->
  Ascii.eqb c ";" = false -> (is_name_char c || Ascii.eqb c "#") = false ->
  mode_of (xml_run st (a ++ "&" ++ b ++ String c rest)) = Bad.
Proof.
  intros Hst Ha Hb Hc Hn. rewrite xml_run_app, (markup_free_inert a Ha st Hst).
  cbn [append xml_run]. rewrite xml_run_app. cbn [xml_run].
  assert (Hr : in_ref (xml_char st "&") = true)
    by (destruct st as [m [|? ?] r tt]; destruct m; try discriminate; reflexivity).
  rewrite xml_run_bad; apply ref_breaks; try assumption; now apply ref_stays.
Qed.

Lemma fragment_ok_bad st : mode_of st = Bad -> fragment_ok st = false.
Proof. destruct st as [m stk r tt]. cbn. now intros ->. Qed.

Lemma document_ok_bad st : mode_of st = Bad -> document_ok st = false.
Proof. destruct st as [m stk r tt]. cbn. now intros ->. Qed.

End XmlWf.
