(* ===== verification/XmlParse.v ===== *)
(** * What an XML reader makes of the text [play] produces

    The renderer parses the body of each action and, in [SetAVTransportURI],
    the DIDL-Lite document carried in [CurrentURIMetaData].  [p_char] is a
    reader of XML into a tree of [node]s, built on the recognizer of
    [XmlWf]: its state is the recognizer's state ([p_xs], which it updates
    with [xml_char] and nothing else) together with the tree under
    construction: the open elements with their attributes and children,
    the attributes of the start tag being read, and the text or attribute
    value being read, with its references decoded.  Text nodes made only of
    white space between elements are dropped, as a DIDL-Lite or SOAP reader
    does; a reference that [Escape.decode_entity] cannot decode fails the
    parse.

    The lemmas mirror those of [XmlWf]: in an inert state, text without
    markup is appended as it is, and every output of [escape_str_attribute]
    is appended decoded, so a rendered template is parsed by running the
    reader over its literal pieces with each slot's decoded value appended
    ([p_run_tmpl], [parse_fragment_render]). *)

From Stdlib Require Import String Ascii List Bool Lia.
From S2P Require Import Prelude Escape Format XmlWf.
Import ListNotations.
Local Open Scope string_scope.

Module XmlParse.
Import Format Escape XmlWf.

#[warnings="-register-all"]
Inductive node : Type :=
| Elem (name : string) (attrs : list (string * string)) (children : list node)
| Chars (text : string).

(** An open element: its name, its attributes and its children so far,
    the last first. *)
Definition frame : Type := (string * list (string * string) * list node)%type.

Record pstate : Type := mkP {
  p_xs : xstate;                         (** the recognizer's state *)
  p_frames : list frame;                 (** the open elements, innermost first *)
  p_top : list node;                     (** the top-level nodes, the last first *)
  p_attrs : list (string * string);      (** the start tag's attributes, the last first *)
  p_buf : string;                        (** the text or attribute value being read *)
  p_blank : bool;                        (** the text read so far is white space *)
  p_err : bool                           (** a reference could not be decoded *)
}.

Definition p_init : pstate := mkP xml_init [] [] [] "" true false.

Definition set_xs (ps : pstate) (xs : xstate) : pstate :=
  mkP xs (p_frames ps) (p_top ps) (p_attrs ps) (p_buf ps) (p_blank ps) (p_err ps).

Definition add_char (ps : pstate) (c : ascii) : pstate :=
  mkP (p_xs ps) (p_frames ps) (p_top ps) (p_attrs ps) (p_buf ps ++ str1 c)
      (p_blank ps && is_space c) (p_err ps).

(** A node is a child of the innermost open element, or a top-level node. *)
Definition add_child (ps : pstate) (n : node) : pstate :=
  match p_frames ps with
  | (t, a, ch) :: fs => mkP (p_xs ps) ((t, a, n :: ch) :: fs) (p_top ps) (p_attrs ps)
                            (p_buf ps) (p_blank ps) (p_err ps)
  | [] => mkP (p_xs ps) [] (n :: p_top ps) (p_attrs ps) (p_buf ps) (p_blank ps) (p_err ps)
  end.

Definition reset_buf (ps : pstate) : pstate :=
  mkP (p_xs ps) (p_frames ps) (p_top ps) (p_attrs ps) "" true (p_err ps).

(** The text read so far becomes a node, unless it is white space. *)
Definition flush (ps : pstate) : pstate :=
  if p_blank ps then reset_buf ps else reset_buf (add_child ps (Chars (p_buf ps))).

Definition add_ref (ps : pstate) (name : string) : pstate :=
  match decode_entity name with
  | Some ch => add_char ps ch
  | None => mkP (p_xs ps) (p_frames ps) (p_top ps) (p_attrs ps) (p_buf ps) (p_blank ps) true
  end.

Definition end_attr (ps : pstate) (name : string) : pstate :=
  mkP (p_xs ps) (p_frames ps) (p_top ps) ((name, p_buf ps) :: p_attrs ps) "" true (p_err ps).

Definition open_elem (ps : pstate) (t : string) : pstate :=
  mkP (p_xs ps) ((t, rev (p_attrs ps), []) :: p_frames ps) (p_top ps) [] "" true (p_err ps).

Definition empty_el (ps : pstate) (t : string) : pstate :=
  add_child (mkP (p_xs ps) (p_frames ps) (p_top ps) [] (p_buf ps) (p_blank ps) (p_err ps))
            (Elem t (rev (p_attrs ps)) []).

Definition close_elem (ps : pstate) : pstate :=
  match p_frames ps with
  | (t, a, ch) :: fs =>
      add_child (mkP (p_xs ps) fs (p_top ps) (p_attrs ps) (p_buf ps) (p_blank ps) (p_err ps))
                (Elem t a (rev ch))
  | [] => ps
  end.

(** One character: the recognizer's step, and what it means for the tree. *)
Definition p_char (ps : pstate) (c : ascii) : pstate :=
  let ps' := set_xs ps (xml_char (p_xs ps) c) in
  match mode_of (p_xs ps) with
  | Text =>
      if Ascii.eqb c "<" then flush ps'
      else if Ascii.eqb c "&" then ps'
      else add_char ps' c
  | TextRef n | AttrRef _ _ n => if Ascii.eqb c ";" then add_ref ps' n else ps'
  | StartName t | InTag t _ | AfterVal t _ => if Ascii.eqb c ">" then open_elem ps' t else ps'
  | AttrVal _ atts =>
      if Ascii.eqb c dq then end_attr ps' (hd "" atts)
      else if Ascii.eqb c "<" then ps'
      else if Ascii.eqb c "&" then ps'
      else add_char ps' c
  | EmptyEnd t => if Ascii.eqb c ">" then empty_el ps' t else ps'
  | EndName _ | EndTail _ => if Ascii.eqb c ">" then close_elem ps' else ps'
  | _ => ps'
  end.

Fixpoint p_run (ps : pstate) (s : string) : pstate :=
  match s with
  | EmptyString => ps
  | String c s' => p_run (p_char ps c) s'
  end.

Definition finish_fragment (ps : pstate) : option (list node) :=
  let ps := flush ps in
  if fragment_ok (p_xs ps) && negb (p_err ps) then Some (rev (p_top ps)) else None.

Definition finish_document (ps : pstate) : option node :=
  let ps := flush ps in
  if document_ok (p_xs ps) && negb (p_err ps)
  then match rev (p_top ps) with [n] => Some n | _ => None end
  else None.

(** Element content, as a list of nodes. *)
Definition parse_fragment (s : string) : option (list node) := finish_fragment (p_run p_init s).

(** A document, as its root element. *)
Definition parse_document (s : string) : option node := finish_document (p_run p_init s).

(** Text content of an element: no node for empty text. *)
Definition text_content (s : string) : list node :=
  match s with EmptyString => [] | _ => [Chars s] end.

(** ** Templates *)

(** Text made only of white space (or empty). *)
Definition blank (s : string) : bool := all_chars is_space s.

(** A value an XML reader reads back as itself: no markup, not blank. *)
Definition plain_value (s : string) : bool := markup_free s && negb (blank s).

(** A slot's decoded text appended to the text being read. *)
Definition add_text (ps : pstate) (w : string) : pstate :=
  mkP (p_xs ps) (p_frames ps) (p_top ps) (p_attrs ps) (p_buf ps ++ w)
      (p_blank ps && blank w) (p_err ps).

(** The same, for a slot whose text is known to hold a non-blank character. *)
Definition add_slot (ps : pstate) (w : string) : pstate :=
  mkP (p_xs ps) (p_frames ps) (p_top ps) (p_attrs ps) (p_buf ps ++ w) false (p_err ps).

(** The reader over a template whose slot [p] has the decoded text
    [dec p] ([None] for an empty slot); [None] when a slot is where its
    text could matter. *)
Fixpoint p_run_tmpl (dec : piece -> option string) (ps : pstate) (t : template)
  : option pstate :=
  match t with
  | [] => Some ps
  | Lit s :: t' => p_run_tmpl dec (p_run ps s) t'
  | p :: t' =>
      if inert_state (p_xs ps) then
        match dec p with
        | Some w => p_run_tmpl dec (add_slot ps w) t'
        | None => p_run_tmpl dec ps t'
        end
      else None
  end.

(** What a slot's text decodes to, in every inert state. *)
Definition slot_decodes (a : args) (dec : piece -> option string) (p : piece) : Prop :=
  match dec p with
  | Some w =>
      blank w = false /\
      forall ps, inert_state (p_xs ps) = true -> p_run ps (piece_text a p) = add_text ps w
  | None => piece_text a p = ""
  end.

Definition slots_decode (a : args) (dec : piece -> option string) (t : template) : Prop :=
  Forall (fun p => match p with Lit _ => True | _ => slot_decodes a dec p end) t.

Definition parse_fragment_tmpl (dec : piece -> option string) (t : template) : option (list node) :=
  match p_run_tmpl dec p_init t with Some ps => finish_fragment ps | None => None end.

Definition parse_document_tmpl (dec : piece -> option string) (t : template) : option node :=
  match p_run_tmpl dec p_init t with Some ps => finish_document ps | None => None end.

(** ** Lemmas *)

Lemma p_xs_add_child ps n : p_xs (add_child ps n) = p_xs ps.
Proof. destruct ps as [xs [|[[? ?] ?] ?] top at0 buf bl err]; reflexivity. Qed.

Lemma p_xs_flush ps : p_xs (flush ps) = p_xs ps.
Proof. unfold flush. destruct (p_blank ps); [reflexivity|]. apply p_xs_add_child. Qed.

Lemma p_xs_add_ref ps n : p_xs (add_ref ps n) = p_xs ps.
Proof. unfold add_ref. now destruct (decode_entity n). Qed.

Lemma p_xs_close_elem ps : p_xs (close_elem ps) = p_xs ps.
Proof.
  unfold close_elem. destruct (p_frames ps) as [|[[? ?] ?] ?]; [reflexivity | now rewrite p_xs_add_child].
Qed.

Lemma p_xs_empty_el ps t : p_xs (empty_el ps t) = p_xs ps.
Proof. unfold empty_el. now rewrite p_xs_add_child. Qed.

Create Rewrite HintDb xml_state.
#[local] Hint Rewrite p_xs_flush p_xs_add_ref p_xs_close_elem p_xs_empty_el : xml_state.

(** The reader updates the recognizer's state and nothing else does. *)
Lemma p_xs_char ps c : p_xs (p_char ps c) = xml_char (p_xs ps) c.
Proof.
  unfold p_char. destruct (mode_of (p_xs ps));
    repeat match goal with
           | |- context [if ?b then _ else _] => destruct b
           end; autorewrite with xml_state; reflexivity.
Qed.

Lemma p_xs_run ps s : p_xs (p_run ps s) = xml_run (p_xs ps) s.
Proof. revert ps. induction s as [|c s IH]; intros ps; [reflexivity|]. cbn. now rewrite IH, p_xs_char. Qed.

Lemma p_run_app ps a b : p_run ps (a ++ b) = p_run (p_run ps a) b.
Proof. revert ps. induction a as [|c a IH]; intros ps; [reflexivity | apply IH]. Qed.

#[export] Hint Rewrite p_xs_run p_run_app : dlna_str.

(** The reader accepts only what the recognizer accepts: a parsed text is
    well formed. *)
Lemma parse_fragment_wf s f : parse_fragment s = Some f -> fragment_wf s = true.
Proof.
  unfold parse_fragment, finish_fragment, fragment_wf. rewrite p_xs_flush, p_xs_run.
  destruct (fragment_ok _); [reflexivity | discriminate].
Qed.

Lemma parse_document_wf s n : parse_document s = Some n -> document_wf s = true.
Proof.
  unfold parse_document, finish_document, document_wf. rewrite p_xs_flush, p_xs_run.
  destruct (document_ok _); [reflexivity | discriminate].
Qed.

Lemma set_xs_same ps : set_xs ps (p_xs ps) = ps.
Proof. now destruct ps. Qed.

(** In an inert state, a character without markup is appended. *)
Lemma p_char_plain ps c :
  inert_state (p_xs ps) = true -> Ascii.eqb c "<" = false -> Ascii.eqb c "&" = false ->
  Ascii.eqb c dq = false -> p_char ps c = add_char ps c.
Proof.
  intros Hst Hlt Hamp Hdq. unfold p_char.
  rewrite (xml_char_inert _ _ Hst Hlt Hamp Hdq), set_xs_same.
  destruct ps as [[m stk r tt] fr top at0 buf bl err]; cbn in Hst |- *.
  destruct m; try discriminate; now rewrite ?Hlt, ?Hamp, ?Hdq.
Qed.

Lemma add_char_text ps c w : add_text (add_char ps c) w = add_text ps (String c w).
Proof.
  destruct ps; unfold add_text, add_char; cbn. now rewrite append_assoc, andb_assoc.
Qed.

Lemma add_text_nil ps : add_text ps "" = ps.
Proof. destruct ps; unfold add_text; cbn. now rewrite append_nil_r, andb_true_r. Qed.

(** Text without markup is appended as it is. *)
Lemma p_run_markup_free ps v :
  inert_state (p_xs ps) = true -> markup_free v = true -> p_run ps v = add_text ps v.
Proof.
  unfold markup_free. revert ps. induction v as [|c v IH]; intros ps Hst Hv.
  - now rewrite add_text_nil.
  - cbn [no_char] in Hv. rewrite !andb_true_iff, !negb_true_iff in Hv.
    destruct Hv as [[[Hlt Hv1] [Hamp Hv2]] [Hdq Hv3]].
    cbn [p_run]. rewrite p_char_plain by assumption.
    rewrite IH; [apply add_char_text | exact Hst | now rewrite Hv1, Hv2, Hv3].
Qed.

(** Each reference the escaper writes is read back as its character. *)
Lemma p_run_escape_piece ps c e :
  inert_state (p_xs ps) = true -> escape_attribute_char c = Some e -> p_run ps e = add_char ps c.
Proof.
  intros Hst E. destruct ps as [[m stk r tt] fr top at0 buf bl err]. unfold escape_attribute_char in E.
  repeat match type of E with
         | context [Ascii.eqb c ?x] => destruct (Ascii.eqb_spec c x) as [->|_]
         end; inversion E; subst;
  destruct m; try discriminate; try (destruct stk; [discriminate|]); reflexivity.
Qed.

(** What [escape_str_attribute] writes is read back as the text escaped. *)
Lemma p_run_escape ps d :
  inert_state (p_xs ps) = true -> p_run ps (escape_str_attribute d) = add_text ps d.
Proof.
  revert ps. induction d as [|c d IH]; intros ps Hst; [now rewrite add_text_nil|].
  cbn [escape_str_attribute]. destruct (escape_attribute_char c) as [e|] eqn:E.
  - rewrite p_run_app, (p_run_escape_piece ps c e Hst E), IH; [apply add_char_text|].
    destruct ps; exact Hst.
  - cbn [p_run]. pose proof (escape_attribute_char_none c E) as Hn.
    rewrite p_char_plain; [| exact Hst | ..]; [| apply Ascii.eqb_neq, Hn; simpl; tauto ..].
    rewrite IH; [apply add_char_text | destruct ps; exact Hst].
Qed.

(** A slot holding non-blank text without markup decodes to itself. *)
Lemma slot_plain a p :
  blank (piece_text a p) = false -> markup_free (piece_text a p) = true ->
  slot_decodes a (fun q => Some (piece_text a q)) p.
Proof. intros Hb Hm. split; [exact Hb|]. intros ps Hst. now apply p_run_markup_free. Qed.

Lemma plain_value_iff v : plain_value v = true <-> markup_free v = true /\ blank v = false.
Proof. unfold plain_value. rewrite andb_true_iff, negb_true_iff. tauto. Qed.

Lemma slot_plain_value a p :
  plain_value (piece_text a p) = true -> slot_decodes a (fun q => Some (piece_text a q)) p.
Proof. intros [Hm Hb]%plain_value_iff. now apply slot_plain. Qed.

Lemma add_text_slot ps w : blank w = false -> add_text ps w = add_slot ps w.
Proof. intros Hw. unfold add_text, add_slot. now rewrite Hw, andb_false_r. Qed.

(** The reader over a rendered template is the reader over its literal
    pieces with each slot's decoded text appended. *)
Lemma p_run_render a dec t ps ps' :
  slots_decode a dec t -> p_run_tmpl dec ps t = Some ps' -> p_run ps (render a t) = ps'.
Proof.
  intros Ht. revert ps. induction Ht as [|p t Hp _ IH]; intros ps E; cbn [render].
  - now inversion E.
  - rewrite p_run_app. destruct p as [s|n|i]; cbn [p_run_tmpl] in E; [now apply IH | ..].
    all: destruct (inert_state (p_xs ps)) eqn:Hst; [|discriminate].
    all: unfold slot_decodes in Hp; destruct (dec _) as [w|] in Hp, E.
    all: first [ rewrite Hp
               | destruct Hp as [Hb Hp]; rewrite (Hp ps Hst), add_text_slot by exact Hb ];
         apply IH; exact E.
Qed.

Lemma parse_fragment_render a dec t :
  slots_decode a dec t -> parse_fragment_tmpl dec t <> None ->
  parse_fragment (render a t) = parse_fragment_tmpl dec t.
Proof.
  unfold parse_fragment_tmpl, parse_fragment. intros Ht Hn.
  destruct (p_run_tmpl dec p_init t) eqn:E; [|congruence].
  now rewrite (p_run_render a dec t _ _ Ht E).
Qed.

Lemma parse_document_render a dec t :
  slots_decode a dec t -> parse_document_tmpl dec t <> None ->
  parse_document (render a t) = parse_document_tmpl dec t.
Proof.
  unfold parse_document_tmpl, parse_document. intros Ht Hn.
  destruct (p_run_tmpl dec p_init t) eqn:E; [|congruence].
  now rewrite (p_run_render a dec t _ _ Ht E).
Qed.

(** Parse a rendered template by its literal pieces: the reader's result
    is computed, and what is left to show is that each slot decodes to
    [dec] of it. *)
Ltac parse_by_template dec :=
  first [ rewrite (parse_document_render _ dec) | rewrite (parse_fragment_render _ dec) ];
  [ vm_compute; reflexivity | | vm_compute; discriminate ].

End XmlParse.
