(* ===== verification/Streaming.v ===== *)
(** * The media streaming server, at its interface

    [play] receives a [crate::streaming::MediaStreamingServer] and calls its
    accessors [subtitle_uri()] (line 12), [video_uri()] (lines 34 and 49),
    [video_type()] (line 35) and [subtitle_type()] (line 37), then moves it
    into the spawned task that runs [run()] (lines 54-56).  The server's
    code is not under [src/], so its interface is taken from the spec
    (section 4.4): the class [MediaStreaming] is what the server promises to
    [play], and [MediaStreamingServer] is the media descriptor of section 3
    with the accessors returning its fields.  The run loop is an effect of
    the orchestrator (see [Orchestrator]). *)

From Stdlib Require Import String List Bool.
From S2P Require Import Prelude.
Local Open Scope string_scope.

Module Streaming.

(** What [play] may ask of the streaming server.  The accessors are
    functions of the server: the spec requires them to be stable for the
    lifetime of the session, so two calls return the same value. *)
Class MediaStreaming (S : Type) : Type := {
  video_uri : S -> string;
  video_type : S -> string;
  subtitle_uri : S -> option string;
  subtitle_type : S -> option string
}.

(** The media descriptor: a video and an optional subtitle sidecar. *)
Record MediaStreamingServer : Type := mkServer {
  srv_video_uri : string;
  srv_video_type : string;
  srv_subtitle_uri : option string;
  srv_subtitle_type : option string
}.

#[export] Instance MediaStreamingServer_streaming : MediaStreaming MediaStreamingServer := {
  video_uri := srv_video_uri;
  video_type := srv_video_type;
  subtitle_uri := srv_subtitle_uri;
  subtitle_type := srv_subtitle_type
}.

(** The descriptor invariant of the spec: a present subtitle has a
    non-empty URI. *)
Definition wf_server {S} `{MediaStreaming S} (srv : S) : Prop :=
  forall u, subtitle_uri srv = Some u -> u <> EmptyString.

End Streaming.
