(* ===== verification/Metadata.v ===== *)
(** * The DIDL-Lite metadata of the video ([dlna.rs] lines 12-42)

    [play] asks the streaming server for the subtitle URI; when there is
    one, it renders the DIDL-Lite document of lines 16-33 with [format!],
    filling [{type_video}], [{uri_sub}] (five slots), [{type_sub}] (three
    slots) and [{uri_video}] from the server's accessors, the subtitle type
    defaulting to ["unknown"] (line 37), and escapes the result with
    [escape_str_attribute]; when there is none, the metadata is the empty
    string (line 41).  [didl_template] is the template of lines 17-33 as
    rustc parses it, reproduced byte for byte (backticks stand for double
    quotes, see [Prelude.q]); [payload_subtitle] is the [match] of lines
    13-42.

    The theorems show what the renderer receives: no metadata without a
    subtitle, otherwise the escape of one DIDL-Lite document in which every
    slot reads back the value [play] put there. *)

From Stdlib Require Import String Ascii List Bool Lia.
From S2P Require Import Prelude Escape Format XmlWf XmlParse Streaming.
Import ListNotations.
Local Open Scope string_scope.

Module Metadata.
Import Format XmlWf XmlParse Streaming.

(** The template of [dlna.rs] lines 16-33. *)
Definition didl_template : template := [
  Lit (q "
                    <DIDL-Lite xmlns=`urn:schemas-upnp-org:metadata-1-0/DIDL-Lite/`
                               xmlns:dc=`http://purl.org/dc/elements/1.1/` 
                               xmlns:upnp=`urn:schemas-upnp-org:metadata-1-0/upnp/` 
                               xmlns:dlna=`urn:schemas-dlna-org:metadata-1-0/` 
                               xmlns:sec=`http://www.sec.co.kr/` 
                               xmlns:xbmc=`urn:schemas-xbmc-org:metadata-1-0/`>
                        <item id=`0` parentID=`-1` restricted=`1`>
                            <dc:title>nano-dlna Video</dc:title>
                            <res protocolInfo=`http-get:*:video/");
  Named "type_video";
  Lit (q ":` xmlns:pv=`http://www.pv.com/pvns/` pv:subtitleFileUri=`");
  Named "uri_sub";
  Lit (q "` pv:subtitleFileType=`");
  Named "type_sub";
  Lit (q "`>");
  Named "uri_video";
  Lit (q "</res>
                            <res protocolInfo=`http-get:*:text/srt:*`>");
  Named "uri_sub";
  Lit (q "</res>
                            <res protocolInfo=`http-get:*:smi/caption:*`>");
  Named "uri_sub";
  Lit (q "</res>
                            <sec:CaptionInfoEx sec:type=`");
  Named "type_sub";
  Lit (q "`>");
  Named "uri_sub";
  Lit (q "</sec:CaptionInfoEx>
                            <sec:CaptionInfo sec:type=`");
  Named "type_sub";
  Lit (q "`>");
  Named "uri_sub";
  Lit (q "</sec:CaptionInfo>
                            <upnp:class>object.item.videoItem.movie</upnp:class>
                        </item>
                    </DIDL-Lite>
                    ")
].

(** The raw format string of lines 16-33, as the source writes it. *)
Definition didl_format_string : string := q "
                    <DIDL-Lite xmlns=`urn:schemas-upnp-org:metadata-1-0/DIDL-Lite/`
                               xmlns:dc=`http://purl.org/dc/elements/1.1/` 
                               xmlns:upnp=`urn:schemas-upnp-org:metadata-1-0/upnp/` 
                               xmlns:dlna=`urn:schemas-dlna-org:metadata-1-0/` 
                               xmlns:sec=`http://www.sec.co.kr/` 
                               xmlns:xbmc=`urn:schemas-xbmc-org:metadata-1-0/`>
                        <item id=`0` parentID=`-1` restricted=`1`>
                            <dc:title>nano-dlna Video</dc:title>
                            <res protocolInfo=`http-get:*:video/{type_video}:` xmlns:pv=`http://www.pv.com/pvns/` pv:subtitleFileUri=`{uri_sub}` pv:subtitleFileType=`{type_sub}`>{uri_video}</res>
                            <res protocolInfo=`http-get:*:text/srt:*`>{uri_sub}</res>
                            <res protocolInfo=`http-get:*:smi/caption:*`>{uri_sub}</res>
                            <sec:CaptionInfoEx sec:type=`{type_sub}`>{uri_sub}</sec:CaptionInfoEx>
                            <sec:CaptionInfo sec:type=`{type_sub}`>{uri_sub}</sec:CaptionInfo>
                            <upnp:class>object.item.videoItem.movie</upnp:class>
                        </item>
                    </DIDL-Lite>
                    ".

(** The named arguments of lines 34-37. *)
Definition didl_args (uri_video type_video uri_sub type_sub : string) : args :=
  mkArgs [] [("uri_video", uri_video); ("type_video", type_video);
             ("uri_sub", uri_sub); ("type_sub", type_sub)].

(** The [format!] call of lines 16-38, before escaping. *)
Definition didl_metadata (uri_video type_video uri_sub type_sub : string) : string :=
  render (didl_args uri_video type_video uri_sub type_sub) didl_template.

(** The shape of the document spec section 6 prescribes, as the tree an
    XML reader builds: the fixed namespace declarations, one [item] with
    [id="0" parentID="-1" restricted="1"], and in it, in order, the title,
    the video resource with its [protocolInfo] subtype and the vendor
    subtitle attributes, the [text/srt] and [smi/caption] subtitle
    resources, the extended and the primary caption-info entries, and the
    [upnp:class].  This is the contract [didl_metadata] is proved to meet;
    it is not a translation of the code. *)
Definition didl_namespaces : list (string * string) := [
  ("xmlns", "urn:schemas-upnp-org:metadata-1-0/DIDL-Lite/");
  ("xmlns:dc", "http://purl.org/dc/elements/1.1/");
  ("xmlns:upnp", "urn:schemas-upnp-org:metadata-1-0/upnp/");
  ("xmlns:dlna", "urn:schemas-dlna-org:metadata-1-0/");
  ("xmlns:sec", "http://www.sec.co.kr/");
  ("xmlns:xbmc", "urn:schemas-xbmc-org:metadata-1-0/")].

Definition didl_shape (uri_video type_video uri_sub type_sub : string) : node :=
  Elem "DIDL-Lite" didl_namespaces [
    Elem "item" [("id", "0"); ("parentID", "-1"); ("restricted", "1")] [
      Elem "dc:title" [] [Chars "nano-dlna Video"];
      Elem "res" [("protocolInfo", "http-get:*:video/" ++ type_video ++ ":");
                  ("xmlns:pv", "http://www.pv.com/pvns/");
                  ("pv:subtitleFileUri", uri_sub);
                  ("pv:subtitleFileType", type_sub)] [Chars uri_video];
      Elem "res" [("protocolInfo", "http-get:*:text/srt:*")] [Chars uri_sub];
      Elem "res" [("protocolInfo", "http-get:*:smi/caption:*")] [Chars uri_sub];
      Elem "sec:CaptionInfoEx" [("sec:type", type_sub)] [Chars uri_sub];
      Elem "sec:CaptionInfo" [("sec:type", type_sub)] [Chars uri_sub];
      Elem "upnp:class" [] [Chars "object.item.videoItem.movie"]]].

Section WithServer.
Context {S : Type} `{MediaStreaming S}.

(** Lines 12-42: the metadata text carried in [CurrentURIMetaData]. *)
Definition payload_subtitle (srv : S) : string :=
  match subtitle_uri srv with
  | Some uri_sub =>
      Escape.escape_str_attribute
        (didl_metadata (video_uri srv) (video_type srv) uri_sub
                       (unwrap_or (subtitle_type srv) "unknown"))
  | None => ""
  end.

(** The document the renderer reads: the payload of the code, unescaped. *)
Definition metadata_document (srv : S) : string :=
  unwrap_or (Escape.unescape_attribute (payload_subtitle srv)) "".

(** What that document is, by the code's [match]: the DIDL-Lite document of
    the server's values with the subtitle type of line 37, or nothing. *)
Lemma metadata_document_match (srv : S) :
  metadata_document srv =
  match subtitle_uri srv with
  | Some uri_sub =>
      didl_metadata (video_uri srv) (video_type srv) uri_sub
                    (unwrap_or (subtitle_type srv) "unknown")
  | None => ""
  end.
Proof.
  unfold metadata_document, payload_subtitle.
  destruct (subtitle_uri srv); [now rewrite Escape.unescape_escape | reflexivity].
Qed.

(** The two branches of the [match] are one: the payload is the escape of
    the document ([escape_str_attribute ""] is [""]). *)
Lemma payload_subtitle_escape (srv : S) :
  payload_subtitle srv = Escape.escape_str_attribute (metadata_document srv).
Proof. rewrite metadata_document_match. unfold payload_subtitle. now destruct (subtitle_uri srv). Qed.

(** The document is empty, without a subtitle, or holds non-blank text. *)
Lemma metadata_document_cases (srv : S) :
  metadata_document srv = "" \/ XmlParse.blank (metadata_document srv) = false.
Proof.
  rewrite metadata_document_match. destruct (subtitle_uri srv); [right; reflexivity | now left].
Qed.

End WithServer.

(** ** Theorems *)

Lemma didl_metadata_nonempty uv tv su st : didl_metadata uv tv su st <> EmptyString.
Proof. discriminate. Qed.

(** C19. The metadata is empty exactly when the server has no subtitle. *)
Theorem payload_subtitle_empty_iff {S} `{MediaStreaming S} (srv : S) :
  payload_subtitle srv = EmptyString <-> subtitle_uri srv = None.
Proof.
  unfold payload_subtitle. destruct (subtitle_uri srv) as [su|]; [|tauto].
  split; [|discriminate]. intros Hm. exfalso.
  exact (Escape.escape_nonempty _ (didl_metadata_nonempty _ _ _ _) Hm).
Qed.

(** C18. The video resource: its [protocolInfo] carries the video subtype and
    its text is the video URI. *)
Theorem didl_video_resource uv tv su st :
  attr_safe uv = true -> attr_safe tv = true -> attr_safe su = true -> attr_safe st = true ->
  attr_value "protocolInfo" (didl_metadata uv tv su st) = Some (q "http-get:*:video/" ++ tv ++ ":") /\
  elem_text "<res " (didl_metadata uv tv su st) = Some uv.
Proof. intros. unfold didl_metadata, attr_value, elem_text. split; read_back. Qed.

(** C17. Every subtitle slot of the document holds the subtitle URI: the
    [pv:subtitleFileUri] attribute, the text of the two alternate [res]
    elements and of the two caption-info elements; the subtitle type is the
    [pv:subtitleFileType] attribute. *)
Theorem didl_subtitle_slots uv tv su st :
  attr_safe uv = true -> attr_safe tv = true -> attr_safe su = true -> attr_safe st = true ->
  let m := didl_metadata uv tv su st in
  attr_value "pv:subtitleFileUri" m = Some su /\
  attr_value "pv:subtitleFileType" m = Some st /\
  elem_text (q "<res protocolInfo=`http-get:*:text/srt:*`") m = Some su /\
  elem_text (q "<res protocolInfo=`http-get:*:smi/caption:*`") m = Some su /\
  elem_text "<sec:CaptionInfoEx " m = Some su /\
  elem_text "<sec:CaptionInfo " m = Some su.
Proof. intros. unfold didl_metadata, attr_value, elem_text. repeat split; read_back. Qed.

(** C30. The subtitle URI occurs at least five times in the document, whatever
    the other arguments. *)
Theorem didl_subtitle_occurrences uv tv su st :
  su <> EmptyString -> 5 <= occ su (didl_metadata uv tv su st).
Proof.
  intros Hsu. change 5 with (count_named "uri_sub" didl_template).
  apply render_occ_named; [reflexivity | exact Hsu].
Qed.

(** Count the occurrences of a markup pattern in a render whose arguments
    have no less-than: the literals are computed, the arguments hold none. *)
Ltac count_markup :=
  match goal with
  | |- occ (String "<" ?p) _ = _ =>
      repeat match goal with
      | H : no_char "<" ?x = true |- _ =>
          destruct (no_char_occ_decided "<" p x H) as [? ?]; clear H
      end
  end;
  unfold didl_metadata; rewrite render_occ_decided;
  [ simpl; repeat match goal with H : occ _ _ = 0 |- _ => rewrite H; clear H end; reflexivity
  | repeat constructor; simpl; first [reflexivity | assumption] ].

(** C27. The document has one [item] element, three [res] resources, two
    caption-info elements and one [DIDL-Lite] root, whatever arguments
    without a less-than [play] puts in it. *)
Theorem didl_element_counts uv tv su st :
  no_char "<" uv = true -> no_char "<" tv = true -> no_char "<" su = true ->
  no_char "<" st = true ->
  occ "<DIDL-Lite " (didl_metadata uv tv su st) = 1 /\
  occ "<item " (didl_metadata uv tv su st) = 1 /\
  occ "<res " (didl_metadata uv tv su st) = 3 /\
  occ "<sec:CaptionInfo" (didl_metadata uv tv su st) = 2.
Proof. intros Hu Ht Hs Hst. repeat split; count_markup. Qed.


(** C14. Well-formedness: whatever URIs and types without a less-than, an
    ampersand or a double quote [play] puts in it, the document is a
    well-formed XML document with one root, [DIDL-Lite]. *)
Theorem didl_well_formed uv tv su st :
  markup_free uv = true -> markup_free tv = true -> markup_free su = true ->
  markup_free st = true ->
  document_wf (didl_metadata uv tv su st) = true.
Proof.
  intros. apply document_wf_render; [repeat constructor; auto with dlna | vm_compute; reflexivity].
Qed.

(** C10. Refinement of the metadata contract (spec section 6): for URIs and
    types without markup and not blank, an XML reader reads the document
    as exactly the tree [didl_shape] of the four values. *)
Theorem didl_document_shape uv tv su st :
  markup_free uv = true -> markup_free tv = true -> markup_free su = true ->
  markup_free st = true -> blank uv = false -> blank tv = false -> blank su = false ->
  blank st = false ->
  parse_document (didl_metadata uv tv su st) = Some (didl_shape uv tv su st).
Proof.
  intros. unfold didl_metadata.
  parse_by_template (fun p => Some (piece_text (didl_args uv tv su st) p)).
  repeat constructor; apply slot_plain; assumption.
Qed.

(** C25. The URIs are not escaped in the document (line 36): for every subtitle
    URI with an ampersand that no [;] follows, as in a query string, the
    DIDL-Lite document the renderer gets once it unescapes the payload is
    not well-formed XML, whatever the other values (a video type without
    markup). *)
Theorem didl_query_uri_ill_formed uv tv a b st :
  markup_free tv = true -> markup_free a = true -> no_char ";" b = true ->
  document_wf (didl_metadata uv tv (a ++ "&" ++ b) st) = false.
Proof.
  intros Ht Ha Hb. unfold didl_metadata, didl_template, document_wf.
  cbn [render piece_text arg_value didl_args lookup_named named String.eqb Ascii.eqb Bool.eqb
       unwrap_or].
  rewrite xml_run_app, xml_run_app, (markup_free_inert tv Ht) by (vm_compute; reflexivity).
  rewrite xml_run_app, !append_assoc. apply document_ok_bad.
  apply unterminated_ref; [vm_compute; reflexivity | exact Ha | exact Hb | reflexivity ..].
Qed.

(** The [format!] call of lines 16-38: rustc accepts it, every named
    argument being used, and it builds [didl_metadata] whatever the
    arguments' values: [didl_template] is the parsed format string. *)
Theorem didl_format_call uv tv su st :
  format didl_format_string (didl_args uv tv su st) = Some (didl_metadata uv tv su st).
Proof.
  unfold format. replace (parse_format didl_format_string) with (Some didl_template)
    by (vm_compute; reflexivity).
  reflexivity.
Qed.

Section ServerTheorems.
Context {S : Type} `{MediaStreaming S}.

(** C29. A subtitle without a known type is announced as ["unknown"]. *)
Theorem metadata_subtitle_type_default (srv : S) su :
  subtitle_uri srv = Some su -> subtitle_type srv = None ->
  attr_safe (video_uri srv) = true -> attr_safe (video_type srv) = true ->
  attr_safe su = true ->
  attr_value "pv:subtitleFileType" (metadata_document srv) = Some "unknown".
Proof.
  intros Hsu Hst Hu Ht Hs. unfold metadata_document, payload_subtitle.
  rewrite Hsu, Hst, Escape.unescape_escape. cbn [unwrap_or].
  unfold didl_metadata, attr_value. read_back.
Qed.

(** C28. The metadata text has no less-than, greater-than, double quote,
    apostrophe or line break: it can stand as element text or as an
    attribute value. *)
Theorem payload_subtitle_safe (srv : S) k :
  In k Escape.forbidden_chars -> no_char k (payload_subtitle srv) = true.
Proof. intros Hk. rewrite payload_subtitle_escape. now apply Escape.escape_no_special. Qed.

End ServerTheorems.

Section ServerShape.
Context {S : Type} `{MediaStreaming S}.

(** The document of a server with a subtitle reads as the tree of its
    values, when each reads back as itself. *)
Lemma metadata_document_shape (srv : S) su :
  subtitle_uri srv = Some su ->
  plain_value (video_uri srv) = true -> plain_value (video_type srv) = true ->
  plain_value su = true -> plain_value (unwrap_or (subtitle_type srv) "unknown") = true ->
  parse_document (metadata_document srv) =
    Some (didl_shape (video_uri srv) (video_type srv) su (unwrap_or (subtitle_type srv) "unknown")).
Proof.
  intros Hsu Hu Ht Hs Hst. rewrite metadata_document_match, Hsu. unfold didl_metadata.
  parse_by_template (fun p => Some (piece_text (didl_args (video_uri srv) (video_type srv) su
                                                          (unwrap_or (subtitle_type srv) "unknown")) p)).
  repeat constructor; apply slot_plain_value; assumption.
Qed.

End ServerShape.

(** ** Witnesses *)

Lemma didl_video_resource_witness :
  attr_value "protocolInfo" (didl_metadata "http://h/v.mp4" "mp4" "http://h/s.srt" "srt") =
    Some (q "http-get:*:video/" ++ "mp4" ++ ":") /\
  elem_text "<res " (didl_metadata "http://h/v.mp4" "mp4" "http://h/s.srt" "srt") =
    Some "http://h/v.mp4".
Proof. apply didl_video_resource; reflexivity. Defined.

Lemma didl_subtitle_slots_witness :
  attr_value "pv:subtitleFileUri" (didl_metadata "http://h/v.mp4" "mp4" "http://h/s.srt" "srt")
  = Some "http://h/s.srt".
Proof.
  pose proof (didl_subtitle_slots "http://h/v.mp4" "mp4" "http://h/s.srt" "srt"
                eq_refl eq_refl eq_refl eq_refl) as H.
  exact (proj1 H).
Defined.

Lemma didl_subtitle_occurrences_witness :
  5 <= occ "http://h/s.srt" (didl_metadata "http://h/v.mp4" "mp4" "http://h/s.srt" "srt").
Proof. apply didl_subtitle_occurrences. discriminate. Defined.

(** The example of spec section 8: exactly five occurrences. *)
Example didl_spec_example :
  occ "http://h/s.srt" (didl_metadata "http://h/v.mp4" "mp4" "http://h/s.srt" "srt") = 5.
Proof. vm_compute. reflexivity. Qed.

Lemma metadata_subtitle_type_default_witness :
  attr_value "pv:subtitleFileType"
    (metadata_document (mkServer "http://h/v.mp4" "mp4" (Some "http://h/s.srt") None))
  = Some "unknown".
Proof.
  apply (metadata_subtitle_type_default _ "http://h/s.srt"); reflexivity.
Defined.

Lemma didl_element_counts_witness :
  occ "<item " (didl_metadata "http://h/v.mp4" "mp4" "http://h/s.srt" "srt") = 1.
Proof.
  pose proof (didl_element_counts "http://h/v.mp4" "mp4" "http://h/s.srt" "srt"
                eq_refl eq_refl eq_refl eq_refl) as H.
  exact (proj1 (proj2 H)).
Defined.

Lemma payload_subtitle_safe_witness :
  no_char "<" (payload_subtitle (mkServer "http://h/v.mp4" "mp4" (Some "http://h/s.srt") None)) = true.
Proof. apply payload_subtitle_safe. simpl. tauto. Defined.

Lemma didl_well_formed_witness :
  document_wf (didl_metadata "http://h/v.mp4" "mp4" "http://h/s.srt" "srt") = true.
Proof. apply didl_well_formed; reflexivity. Defined.

Lemma didl_document_shape_witness :
  parse_document (didl_metadata "http://h/v.mp4" "mp4" "http://h/s.srt" "srt") =
  Some (didl_shape "http://h/v.mp4" "mp4" "http://h/s.srt" "srt").
Proof. apply didl_document_shape; reflexivity. Defined.

Lemma didl_query_uri_ill_formed_witness :
  document_wf (didl_metadata "http://h/v.mp4" "mp4" ("http://h/s.srt?lang=en" ++ "&" ++ "fmt=srt") "srt")
  = false.
Proof. apply didl_query_uri_ill_formed; reflexivity. Defined.

End Metadata.
