(* ===== verification/Payload.v ===== *)
(** * The control payloads ([dlna.rs] lines 5-8 and 44-51)

    [PAYLOAD_PLAY] is the body of the [Play] action; the body of
    [SetAVTransportURI] is the [format!] of lines 44-51, whose two
    positional slots receive the video URI (line 49) and the escaped
    metadata (line 50).  [element_text] is a reader of these bodies: the
    unescaped text of the first element [<tag>...</tag>].

    The theorems show that the renderer reads back what [play] means to
    send: instance [0] and speed [1] in [Play], instance [0], the video URI
    and, through the escape, exactly the DIDL-Lite document in
    [SetAVTransportURI] (spec section 8, third property); and that the
    video URI, which is not escaped, reads back only when it contains no
    ampersand or less-than. *)

From Stdlib Require Import String Ascii List Bool Lia.
From S2P Require Import Prelude Escape Format XmlWf XmlParse Streaming Metadata.
Import ListNotations.
Local Open Scope string_scope.

Module Payload.
Import Format XmlWf XmlParse Streaming Metadata.

(** Lines 5-8. *)
Definition PAYLOAD_PLAY : string := "
    <InstanceID>0</InstanceID>
    <Speed>1</Speed>
".

(** The raw format string of lines 44-48. *)
Definition setav_format_string : string := "
        <InstanceID>0</InstanceID>
        <CurrentURI>{}</CurrentURI>
        <CurrentURIMetaData>{}</CurrentURIMetaData>
        ".

(** The template of lines 44-48. *)
Definition setavtransporturi_template : template := [
  Lit "
        <InstanceID>0</InstanceID>
        <CurrentURI>"; Positional 0; Lit "</CurrentURI>
        <CurrentURIMetaData>"; Positional 1; Lit "</CurrentURIMetaData>
        "].

(** Lines 44-51: [format!(template, streaming_server.video_uri(), payload_subtitle)]. *)
Definition payload_setavtransporturi (video_uri payload_subtitle : string) : string :=
  render (mkArgs [video_uri; payload_subtitle] []) setavtransporturi_template.

(** The fields of the two bodies, as an XML reader reads them (spec
    section 6). *)
Definition play_fields : list node :=
  [Elem "InstanceID" [] [Chars "0"]; Elem "Speed" [] [Chars "1"]].

Definition setav_fields (uri metadata : string) : list node :=
  [Elem "InstanceID" [] [Chars "0"]; Elem "CurrentURI" [] [Chars uri];
   Elem "CurrentURIMetaData" [] (text_content metadata)].

(** The unescaped text of the first element [tag] of a body. *)
Definition element_text (tag s : string) : option string :=
  match after ("<" ++ tag ++ ">") s with
  | Some r =>
      let (txt, rest) := split_until "<" r in
      match strip_prefix ("</" ++ tag ++ ">") rest with
      | Some _ => Escape.unescape_attribute txt
      | None => None
      end
  | None => None
  end.

(** ** Theorems *)


(** C32. The [SetAVTransportURI] body is for instance [0], whatever the URI and
    the metadata. *)
Theorem setav_instance_id vu md :
  element_text "InstanceID" (payload_setavtransporturi vu md) = Some "0".
Proof. reflexivity. Qed.


(** C31. The video URI reads back from [CurrentURI] when it has no ampersand
    and no less-than. *)
Theorem setav_current_uri vu md :
  no_char "&" vu = true -> no_char "<" vu = true ->
  element_text "CurrentURI" (payload_setavtransporturi vu md) = Some vu.
Proof.
  intros Ha Hl. unfold payload_setavtransporturi, element_text. simpl.
  rewrite split_until_app_l by exact Hl. simpl.
  rewrite append_nil_r. now apply Escape.unescape_plain.
Qed.


(** C15. The escaped metadata adds no markup to the body: for a video URI
    without a less-than, the body has exactly the six tags of the
    template, whatever the server's media. *)
Theorem setav_body_markup {S} `{MediaStreaming S} (srv : S) vu :
  no_char "<" vu = true ->
  occ "<" (payload_setavtransporturi vu (payload_subtitle srv)) = 6.
Proof.
  intros Hvu. rewrite payload_subtitle_escape.
  assert (He : no_char "<" (Escape.escape_str_attribute (metadata_document srv)) = true)
    by (apply Escape.escape_no_special; simpl; tauto).
  change "<" with (str1 "<"). unfold payload_setavtransporturi, setavtransporturi_template.
  cbn [render piece_text arg_value nth_error positional unwrap_or].
  rewrite !occ_char_app, (occ_no_char _ _ Hvu), (occ_no_char _ _ He). reflexivity.
Qed.

(** C9. Both control payloads are well-formed XML element content (spec
    sections 3 and 8): the [Play] body, and the [SetAVTransportURI] body
    for every video URI without a less-than, an ampersand or a double
    quote and every server, whatever its subtitle: the escape keeps the
    metadata from breaking the body. *)
Theorem control_payloads_well_formed {S} `{MediaStreaming S} (srv : S) vu :
  markup_free vu = true ->
  fragment_wf PAYLOAD_PLAY = true /\
  fragment_wf (payload_setavtransporturi vu (payload_subtitle srv)) = true.
Proof.
  intros Hvu. split; [vm_compute; reflexivity|]. rewrite payload_subtitle_escape.
  unfold payload_setavtransporturi. apply fragment_wf_render; [|vm_compute; reflexivity].
  repeat constructor; cbn [piece_text arg_value nth_error positional unwrap_or]; auto with dlna.
Qed.

(** An XML reader reads the [SetAVTransportURI] body for a server as
    instance [0], the URI, and the server's DIDL-Lite document unescaped. *)
Lemma setav_body_parse {S} `{MediaStreaming S} (srv : S) vu :
  markup_free vu = true -> blank vu = false ->
  parse_fragment (payload_setavtransporturi vu (payload_subtitle srv)) =
    Some (setav_fields vu (metadata_document srv)).
Proof.
  intros Hm Hb. rewrite payload_subtitle_escape. unfold payload_setavtransporturi.
  destruct (metadata_document_cases srv) as [->|Hd];
    [| generalize dependent (metadata_document srv); intros [|c d] Hd; [discriminate|]].
  - parse_by_template (fun p => match p with Positional 0 => Some vu | _ => None end).
    repeat constructor; [exact Hb | intros ps Hst; now apply p_run_markup_free].
  - parse_by_template (fun p => match p with Positional 0 => Some vu | _ => Some (String c d) end).
    repeat constructor; [exact Hb | intros ps Hst; now apply p_run_markup_free
                        | exact Hd | intros ps Hst; now apply p_run_escape].
Qed.

Lemma play_body_parse : parse_fragment PAYLOAD_PLAY = Some play_fields.
Proof. vm_compute. reflexivity. Qed.


(** C26. The video URI is not escaped (line 49): for every URI with an
    ampersand that no [;] follows, as in a query string [?a=1&b=2], the
    [SetAVTransportURI] body is not well-formed XML, whatever the metadata. *)
Theorem setav_query_uri_ill_formed a b md :
  markup_free a = true -> no_char ";" b = true ->
  fragment_wf (payload_setavtransporturi (a ++ "&" ++ b) md) = false.
Proof.
  intros Ha Hb. unfold payload_setavtransporturi, setavtransporturi_template, fragment_wf.
  cbn [render piece_text arg_value nth_error positional unwrap_or].
  rewrite xml_run_app, !append_assoc. apply fragment_ok_bad.
  apply unterminated_ref; [vm_compute; reflexivity | exact Ha | exact Hb | reflexivity ..].
Qed.

(** The [format!] call of lines 44-51: rustc accepts it, both positional
    arguments being used, and it builds [payload_setavtransporturi]. *)
Theorem setav_format_call vu ps :
  format setav_format_string (mkArgs [vu; ps] []) = Some (payload_setavtransporturi vu ps).
Proof.
  unfold format. replace (parse_format setav_format_string) with (Some setavtransporturi_template)
    by (vm_compute; reflexivity).
  reflexivity.
Qed.


(** ** Witnesses *)

Definition demo_server : MediaStreamingServer :=
  mkServer "http://h/v.mp4" "mp4" (Some "http://h/s.srt") (Some "srt").


Lemma setav_current_uri_witness :
  element_text "CurrentURI" (payload_setavtransporturi "http://h/v.mp4" "") = Some "http://h/v.mp4".
Proof. apply setav_current_uri; reflexivity. Defined.

Lemma setav_body_markup_witness :
  occ "<" (payload_setavtransporturi "http://h/v.mp4" (payload_subtitle demo_server)) = 6.
Proof. apply setav_body_markup. reflexivity. Defined.

Lemma control_payloads_well_formed_witness :
  fragment_wf PAYLOAD_PLAY = true /\
  fragment_wf (payload_setavtransporturi "http://h/v.mp4" (payload_subtitle demo_server)) = true.
Proof. apply control_payloads_well_formed. reflexivity. Defined.


Lemma setav_query_uri_ill_formed_witness :
  fragment_wf (payload_setavtransporturi ("http://h/v.mp4?t=1" ++ "&" ++ "q=hd") "") = false.
Proof. apply setav_query_uri_ill_formed; reflexivity. Defined.

End Payload.
