(* ===== verification/Orchestrator.v ===== *)
(** * The playback orchestrator: [play] ([dlna.rs] lines 10-84)

    [play] is an async function that talks to three parties: the streaming
    server (its accessors, and its run loop spawned as a tokio task), the
    renderer's AVTransport service (two SOAP actions) and the console
    ([println!]).  It is modelled as a program [prog] over exactly these
    effects, written in the monad of [prog] in the order of the source:

    - [SubtitleUri], [VideoUri], [VideoType], [SubtitleType]: the accessor
      calls of lines 12, 34, 35, 37 and 49;
    - [Println]: lines 53, 58 and 69;
    - [SpawnRun]: [tokio::spawn(async move { streaming_server.run().await })]
      (lines 54-56);
    - [Action url name payload]: [render.service.action(...).await]
      (lines 59-64 and 70-75), answered by an [Ok] or an [Err];
    - [JoinRun]: [streaming_server_handle.await] (lines 80-81);
    - [Panic msg]: the [panic!] of each [unwrap_or_else] (lines 65-67, 76-78,
      82-84); a panic ends [play] and unwinds past the [JoinHandle], which
      detaches the spawned task without cancelling it.

    The environment answers the effects: [env_server] is the streaming
    server, [env_action] the renderer's answer to each action and [env_run]
    the result of the spawned task.  Two semantics are given: [exec], an
    interpreter that runs the orchestrator to its end, and [step], the
    interleaving of the orchestrator's steps with the completion of the
    spawned task at any moment. *)

From Stdlib Require Import String Ascii List Bool Lia.
From ExtLib Require Import Structures.Monad.
From S2P Require Import Prelude Escape Format XmlWf XmlParse Streaming Metadata Payload.
Import ListNotations.
Import MonadNotation.
Local Open Scope string_scope.
Local Open Scope monad_scope.

Module Orchestrator.
Import Streaming Metadata Payload XmlWf XmlParse.

(** ** Programs over the effects of [play] *)

Inductive prog (A : Type) : Type :=
| Ret (a : A)
| SubtitleUri (k : option string -> prog A)
| VideoUri (k : string -> prog A)
| VideoType (k : string -> prog A)
| SubtitleType (k : option string -> prog A)
| Println (msg : string) (k : prog A)
| SpawnRun (k : prog A)
| Action (url name payload : string) (k : result unit string -> prog A)
| JoinRun (k : result unit string -> prog A)
| Panic (msg : string).

Arguments Ret {A} a.
Arguments SubtitleUri {A} k.
Arguments VideoUri {A} k.
Arguments VideoType {A} k.
Arguments SubtitleType {A} k.
Arguments Println {A} msg k.
Arguments SpawnRun {A} k.
Arguments Action {A} url name payload k.
Arguments JoinRun {A} k.
Arguments Panic {A} msg.

Fixpoint prog_bind {A B : Type} (p : prog A) (f : A -> prog B) : prog B :=
  match p with
  | Ret a => f a
  | SubtitleUri k => SubtitleUri (fun x => prog_bind (k x) f)
  | VideoUri k => VideoUri (fun x => prog_bind (k x) f)
  | VideoType k => VideoType (fun x => prog_bind (k x) f)
  | SubtitleType k => SubtitleType (fun x => prog_bind (k x) f)
  | Println msg k => Println msg (prog_bind k f)
  | SpawnRun k => SpawnRun (prog_bind k f)
  | Action url name payload k => Action url name payload (fun r => prog_bind (k r) f)
  | JoinRun k => JoinRun (fun r => prog_bind (k r) f)
  | Panic msg => Panic msg
  end.

#[export] Instance Monad_prog : Monad prog := {
  ret := @Ret;
  bind := @prog_bind
}.

(** The calls, each returning the effect's answer. *)
Definition subtitle_uri_call : prog (option string) := SubtitleUri Ret.
Definition video_uri_call : prog string := VideoUri Ret.
Definition video_type_call : prog string := VideoType Ret.
Definition subtitle_type_call : prog (option string) := SubtitleType Ret.
Definition println (msg : string) : prog unit := Println msg (Ret tt).
Definition spawn_run : prog unit := SpawnRun (Ret tt).
Definition action (url name payload : string) : prog (result unit string) :=
  Action url name payload Ret.
Definition join_run : prog (result unit string) := JoinRun Ret.

(** [r.unwrap_or_else(|e| panic!(...))] for a [Result<(), E>]. *)
Definition unwrap_or_panic (diag : string -> string) (r : result unit string) : prog unit :=
  match r with
  | Ok _ => ret tt
  | Err e => Panic (diag e)
  end.

(** ** [play] *)

(** The renderer: [render.device.url()] is the control URL. *)
Record Render : Type := mkRender { device_url : string }.

(** Lines 12-42: the metadata, computed through the accessor calls in the
    order of the source ([format!] evaluates its arguments left to right). *)
Definition payload_subtitle_prog : prog string :=
  subtitle_uri <- subtitle_uri_call ;;
  match subtitle_uri with
  | Some subtitle_uri =>
      uri_video <- video_uri_call ;;
      type_video <- video_type_call ;;
      type_sub <- subtitle_type_call ;;
      ret (Escape.escape_str_attribute
             (didl_metadata uri_video type_video subtitle_uri (unwrap_or type_sub "unknown")))
  | None => ret ""
  end.

Definition diag_setav (e : string) : string := "Unable to SetAVTransportURI, error: " ++ e.
Definition diag_play (e : string) : string := "Unable to Play, error: " ++ e.
Definition diag_serve (e : string) : string := "Error while serving the media files: " ++ e.

(** Lines 44-84: the control body built from the metadata, the spawn, the
    two actions and the join. *)
Definition play_control (render : Render) (payload_subtitle : string) : prog unit :=
  video_uri <- video_uri_call ;;
  let payload := payload_setavtransporturi video_uri payload_subtitle in
  println "Starting media streaming server..." ;;
  spawn_run ;;
  println "Setting Video URI" ;;
  r <- action (device_url render) "SetAVTransportURI" payload ;;
  unwrap_or_panic diag_setav r ;;
  println "Playing video" ;;
  r <- action (device_url render) "Play" PAYLOAD_PLAY ;;
  unwrap_or_panic diag_play r ;;
  j <- join_run ;;
  unwrap_or_panic diag_serve j.

(** Lines 10-84. *)
Definition play (render : Render) : prog unit :=
  payload_subtitle <- payload_subtitle_prog ;;
  play_control render payload_subtitle.

(** ** The world of [play] *)

(** The spawned task: not yet spawned, running, or finished with the
    result of [streaming_server.run()]. *)
Inductive task_state : Type :=
| NotSpawned
| Running
| Finished (r : result unit string).

(** What [play] does that can be observed, in order. *)
Inductive event : Type :=
| EvQuery (accessor : string)
| EvPrint (msg : string)
| EvSpawn
| EvAction (url name payload : string) (resp : result unit string)
| EvJoin (r : result unit string).

Record config (A : Type) : Type := mkConfig {
  c_prog : prog A;
  c_task : task_state;
  c_trace : list event
}.
Arguments mkConfig {A} c_prog c_task c_trace.
Arguments c_prog {A} c.
Arguments c_task {A} c.
Arguments c_trace {A} c.

Section Semantics.
Context {S : Type} `{MediaStreaming S}.

(** The environment: the streaming server, the renderer's answer to each
    action, and the result the spawned task ends with. *)
Variable srv : S.
Variable answer : string -> string -> string -> result unit string.
Variable run_result : result unit string.

(** The interleaving semantics: a step of the orchestrator, or the
    completion of the spawned task, which may happen at any moment after
    the spawn. *)
Inductive step {A : Type} : config A -> config A -> Prop :=
| step_subtitle_uri k t tr :
    step (mkConfig (SubtitleUri k) t tr)
         (mkConfig (k (subtitle_uri srv)) t (tr ++ [EvQuery "subtitle_uri"]))
| step_video_uri k t tr :
    step (mkConfig (VideoUri k) t tr)
         (mkConfig (k (video_uri srv)) t (tr ++ [EvQuery "video_uri"]))
| step_video_type k t tr :
    step (mkConfig (VideoType k) t tr)
         (mkConfig (k (video_type srv)) t (tr ++ [EvQuery "video_type"]))
| step_subtitle_type k t tr :
    step (mkConfig (SubtitleType k) t tr)
         (mkConfig (k (subtitle_type srv)) t (tr ++ [EvQuery "subtitle_type"]))
| step_println msg k t tr :
    step (mkConfig (Println msg k) t tr) (mkConfig k t (tr ++ [EvPrint msg]))
| step_spawn k tr :
    step (mkConfig (SpawnRun k) NotSpawned tr) (mkConfig k Running (tr ++ [EvSpawn]))
| step_action url name payload k t tr :
    step (mkConfig (Action url name payload k) t tr)
         (mkConfig (k (answer url name payload)) t
                   (tr ++ [EvAction url name payload (answer url name payload)]))
| step_join k r tr :
    step (mkConfig (JoinRun k) (Finished r) tr) (mkConfig (k r) (Finished r) (tr ++ [EvJoin r]))
| step_task_done p tr :
    step (mkConfig p Running tr) (mkConfig p (Finished run_result) tr).

(** The interpreter: the orchestrator runs until it returns, panics or
    blocks; the spawned task is left as it is ([Running] unless joined). *)
Fixpoint exec {A : Type} (p : prog A) (t : task_state) (tr : list event) : config A :=
  match p with
  | Ret a => mkConfig (Ret a) t tr
  | Panic msg => mkConfig (Panic msg) t tr
  | SubtitleUri k => exec (k (subtitle_uri srv)) t (tr ++ [EvQuery "subtitle_uri"])
  | VideoUri k => exec (k (video_uri srv)) t (tr ++ [EvQuery "video_uri"])
  | VideoType k => exec (k (video_type srv)) t (tr ++ [EvQuery "video_type"])
  | SubtitleType k => exec (k (subtitle_type srv)) t (tr ++ [EvQuery "subtitle_type"])
  | Println msg k => exec k t (tr ++ [EvPrint msg])
  | SpawnRun k =>
      match t with
      | NotSpawned => exec k Running (tr ++ [EvSpawn])
      | _ => mkConfig (SpawnRun k) t tr
      end
  | Action url name payload k =>
      exec (k (answer url name payload)) t
           (tr ++ [EvAction url name payload (answer url name payload)])
  | JoinRun k =>
      match t with
      | NotSpawned => mkConfig (JoinRun k) t tr
      | Running => exec (k run_result) (Finished run_result) (tr ++ [EvJoin run_result])
      | Finished r => exec (k r) (Finished r) (tr ++ [EvJoin r])
      end
  end.

(** A running task eventually finishes with [run_result]. *)
Definition settle (t : task_state) : task_state :=
  match t with
  | Running => Finished run_result
  | _ => t
  end.

(** The end of every schedule: the orchestrator run to its end, then the
    spawned task to its own. *)
Definition run_to_end {A : Type} (c : config A) : config A :=
  let c' := exec (c_prog c) (c_task c) (c_trace c) in
  mkConfig (c_prog c') (settle (c_task c')) (c_trace c').

(** The configurations where the orchestrator cannot move: it returned or
    panicked, spawns a second time, or joins a task never spawned. *)
Definition halted {A : Type} (p : prog A) (t : task_state) : bool :=
  match p, t with
  | Ret _, _ | Panic _, _ => true
  | SpawnRun _, NotSpawned => false
  | SpawnRun _, _ => true
  | JoinRun _, NotSpawned => true
  | _, _ => false
  end.

(** How often the trace spawned the task. *)
Definition count_spawn (tr : list event) : nat :=
  List.length (filter (fun ev => match ev with EvSpawn => true | _ => false end) tr).

(** The discipline of a tokio [JoinHandle]: the task is spawned once, when
    it leaves [NotSpawned]; it can only finish with the result of its run
    loop; and a join returns that result, once the task has finished. *)
Definition task_wf {A : Type} (c : config A) : Prop :=
  count_spawn (c_trace c) = match c_task c with NotSpawned => 0 | _ => 1 end /\
  (forall r, c_task c = Finished r -> r = run_result) /\
  (forall r, In (EvJoin r) (c_trace c) -> r = run_result /\ c_task c = Finished run_result).

(** ** Facts about the two semantics *)

Ltac step_then IH := eapply star_step; [constructor | apply IH].

(** [exec] follows the step relation. *)
Lemma exec_star {A : Type} (p : prog A) t tr : star step (mkConfig p t tr) (exec p t tr).
Proof.
  revert t tr.
  induction p as [a|k IH|k IH|k IH|k IH|msg k IH|k IH|url name payload k IH|k IH|msg];
    intros t tr; simpl; try solve [apply star_refl | step_then IH].
  - destruct t; [step_then IH | apply star_refl | apply star_refl].
  - destruct t; [apply star_refl | | step_then IH].
    eapply star_step; [apply step_task_done | step_then IH].
Qed.

Lemma settle_star {A : Type} (c : config A) :
  star step c (mkConfig (c_prog c) (settle (c_task c)) (c_trace c)).
Proof.
  destruct c as [p [| |r] tr]; simpl; [apply star_refl | | apply star_refl].
  apply star_one, step_task_done.
Qed.

Lemma run_to_end_star {A : Type} (c : config A) : star step c (run_to_end c).
Proof.
  destruct c as [p t tr]. eapply star_trans; [apply exec_star | apply settle_star].
Qed.

(** The spawned task finishing early changes nothing to the end. *)
Lemma run_to_end_running {A : Type} (p : prog A) tr :
  run_to_end (mkConfig p Running tr) = run_to_end (mkConfig p (Finished run_result) tr).
Proof.
  revert tr. unfold run_to_end; simpl.
  induction p as [a|k IH|k IH|k IH|k IH|msg k IH|k IH|url name payload k IH|k IH|msg];
    intros tr; simpl; try reflexivity; apply IH.
Qed.

(** Schedule independence: no step changes where the system ends. *)
Lemma step_run_to_end {A : Type} (c c' : config A) :
  step c c' -> run_to_end c' = run_to_end c.
Proof. intros Hs. destruct Hs; try reflexivity. symmetry. apply run_to_end_running. Qed.

Lemma star_run_to_end {A : Type} (c c' : config A) :
  star step c c' -> run_to_end c' = run_to_end c.
Proof.
  induction 1 as [|a b d Hab _ IH]; [reflexivity|].
  rewrite IH. apply step_run_to_end, Hab.
Qed.

Lemma exec_halted {A : Type} (p : prog A) t tr :
  halted (c_prog (exec p t tr)) (c_task (exec p t tr)) = true.
Proof.
  revert t tr.
  induction p as [a|k IH|k IH|k IH|k IH|msg k IH|k IH|url name payload k IH|k IH|msg];
    intros t tr; simpl; try reflexivity; try apply IH; destruct t; try reflexivity; apply IH.
Qed.

Lemma halted_irreducible {A : Type} (p : prog A) t tr :
  halted p t = true -> irreducible step (mkConfig p (settle t) tr).
Proof.
  intros Hh c' Hs. inversion Hs; subst; simpl in *; try discriminate;
    destruct t; simpl in *; congruence.
Qed.

(** The end of every schedule is a configuration without transition. *)
Lemma run_to_end_irreducible {A : Type} (c : config A) : irreducible step (run_to_end c).
Proof.
  destruct c as [p t tr]. unfold run_to_end. simpl. apply halted_irreducible, exec_halted.
Qed.

Lemma irreducible_run_to_end {A : Type} (c : config A) :
  irreducible step c -> run_to_end c = c.
Proof.
  destruct c as [p t tr]. intros Hirr.
  assert (Ht : t <> Running) by (intros ->; exact (Hirr _ (step_task_done p tr))).
  unfold run_to_end.
  destruct p as [a|k|k|k|k|msg k|k|url name payload k|k|msg]; simpl;
    try (exfalso; eapply Hirr; constructor; fail);
    destruct t; simpl; try congruence; exfalso; eapply Hirr; constructor.
Qed.

(** Every schedule that cannot go on ends in [run_to_end]. *)
Lemma star_irreducible_end {A : Type} (c0 c : config A) :
  star step c0 c -> irreducible step c -> c = run_to_end c0.
Proof.
  intros Hs Hirr. rewrite <- (star_run_to_end _ _ Hs). symmetry.
  apply irreducible_run_to_end, Hirr.
Qed.

(** Equivalence of the two semantics: the interpreter [run_to_end]
    computes exactly the configurations in which a schedule of the
    interleaving semantics can end, for every program. *)
Theorem run_to_end_normal_form {A : Type} (c c' : config A) :
  run_to_end c = c' <-> star step c c' /\ irreducible step c'.
Proof.
  split.
  - intros <-. split; [apply run_to_end_star | apply run_to_end_irreducible].
  - intros [Hs Hirr]. symmetry. exact (star_irreducible_end _ _ Hs Hirr).
Qed.

Lemma count_spawn_app l1 l2 : count_spawn (l1 ++ l2) = count_spawn l1 + count_spawn l2.
Proof. unfold count_spawn. now rewrite filter_app, length_app. Qed.

Lemma in_trace_snoc (ev e : event) tr : In e (tr ++ [ev]) -> In e tr \/ ev = e.
Proof. intros Hin. apply in_app_or in Hin as [Hin|[Hin|[]]]; auto. Qed.

(** Every step keeps the discipline of the task handle. *)
Lemma step_task_wf {A : Type} (c c' : config A) : step c c' -> task_wf c -> task_wf c'.
Proof.
  unfold task_wf. intros Hs (Hc & Hf & Hj).
  destruct Hs; cbn [c_trace c_task] in *; rewrite ?count_spawn_app.
  1-5,7: split; [rewrite Hc; cbn [count_spawn filter List.length]; lia | split; [exact Hf|]];
         intros r' [Hin|E]%in_trace_snoc; [exact (Hj _ Hin) | discriminate].
  - split; [rewrite Hc; cbn [count_spawn filter List.length]; lia | split; [discriminate|]].
    intros r' [Hin|E]%in_trace_snoc; [destruct (Hj _ Hin); discriminate | discriminate].
  - split; [rewrite Hc; cbn [count_spawn filter List.length]; lia | split; [exact Hf|]].
    intros r' [Hin|E]%in_trace_snoc; [exact (Hj _ Hin)|].
    injection E as <-. rewrite <- (Hf r eq_refl). auto.
  - split; [exact Hc | split; [now intros ? [= <-] |]].
    intros r' Hin. destruct (Hj _ Hin); discriminate.
Qed.

Lemma star_task_wf {A : Type} (c c' : config A) : star step c c' -> task_wf c -> task_wf c'.
Proof. induction 1 as [|a b d Hab _ IH]; intros Ha; [exact Ha | apply IH, (step_task_wf _ _ Hab Ha)]. Qed.

(** Invariant of the task handle: in every configuration a program
    started without a task can reach, the task has been spawned at most
    once, exactly when it left [NotSpawned]; it can only have finished with
    the run loop's result; and every join returned that result, after the
    task finished. *)
Theorem task_discipline {A : Type} (p : prog A) c :
  star step (mkConfig p NotSpawned []) c -> task_wf c.
Proof.
  intros Hs. apply (star_task_wf _ _ Hs).
  split; [reflexivity | split; cbn; intros r Hr; [discriminate | destruct Hr]].
Qed.

(** Traces only grow. *)
Lemma step_trace {A : Type} (c c' : config A) :
  step c c' -> exists l, c_trace c' = (c_trace c ++ l)%list.
Proof. destruct 1; simpl; eauto using app_nil_r. Qed.

Lemma star_trace {A : Type} (c c' : config A) :
  star step c c' -> exists l, c_trace c' = (c_trace c ++ l)%list.
Proof.
  induction 1 as [c|a b d Hab _ [l2 IH]]; [exists []; symmetry; apply app_nil_r|].
  destruct (step_trace _ _ Hab) as [l1 E]. exists (l1 ++ l2)%list.
  rewrite IH, E. symmetry. apply app_assoc.
Qed.

(** The trace of every reachable configuration is a prefix of the trace
    at the end. *)
Lemma reachable_prefix {A : Type} (c0 c : config A) :
  star step c0 c -> exists l, c_trace (run_to_end c0) = (c_trace c ++ l)%list.
Proof.
  intros Hs. rewrite <- (star_run_to_end _ _ Hs). apply star_trace, run_to_end_star.
Qed.

(** ** Termination of every schedule *)

(** The number of steps the orchestrator has left, answered by the
    environment. *)
Fixpoint exec_steps {A : Type} (p : prog A) (t : task_state) : nat :=
  match p with
  | Ret _ | Panic _ => 0
  | SubtitleUri k => 1 + (exec_steps (k (subtitle_uri srv)) t)
  | VideoUri k => 1 + (exec_steps (k (video_uri srv)) t)
  | VideoType k => 1 + (exec_steps (k (video_type srv)) t)
  | SubtitleType k => 1 + (exec_steps (k (subtitle_type srv)) t)
  | Println _ k => 1 + (exec_steps k t)
  | SpawnRun k => match t with NotSpawned => 1 + (exec_steps k Running) | _ => 0 end
  | Action url name payload k => 1 + (exec_steps (k (answer url name payload)) t)
  | JoinRun k =>
      match t with
      | NotSpawned => 0
      | Running => 1 + (exec_steps (k run_result) (Finished run_result))
      | Finished r => 1 + (exec_steps (k r) (Finished r))
      end
  end.

(** The steps left: the orchestrator's, and one for the task while it has
    not finished. *)
Definition measure {A : Type} (c : config A) : nat :=
  exec_steps (c_prog c) (c_task c) + match c_task c with Finished _ => 0 | _ => 1 end.

Lemma exec_steps_running {A : Type} (p : prog A) :
  exec_steps p Running = exec_steps p (Finished run_result).
Proof.
  induction p as [a|k IH|k IH|k IH|k IH|msg k IH|k IH|url name payload k IH|k IH|msg];
    simpl; try reflexivity; now rewrite ?IH.
Qed.

Lemma step_measure {A : Type} (c c' : config A) : step c c' -> measure c' < measure c.
Proof.
  unfold measure. destruct 1; simpl; try (destruct t); simpl; try lia.
  rewrite exec_steps_running. lia.
Qed.

(** No infinite schedule: the step relation is well founded. *)
Lemma step_acc {A : Type} (c : config A) : Acc (fun c2 c1 => step c1 c2) c.
Proof.
  remember (measure c) as n eqn:En. revert c En.
  induction n as [n IH] using (well_founded_induction Wf_nat.lt_wf).
  intros c -> . constructor. intros c' Hs. exact (IH _ (step_measure _ _ Hs) c' eq_refl).
Qed.

Lemma exec_bind {A B : Type} (p : prog A) (f : A -> prog B) t tr :
  exec (prog_bind p f) t tr =
  match exec p t tr with
  | mkConfig (Ret a) t' tr' => exec (f a) t' tr'
  | mkConfig q t' tr' => mkConfig (prog_bind q f) t' tr'
  end.
Proof.
  revert t tr.
  induction p as [a|k IH|k IH|k IH|k IH|msg k IH|k IH|url name payload k IH|k IH|msg];
    intros t tr; simpl; try reflexivity; try apply IH; destruct t; try reflexivity; apply IH.
Qed.

(** ** [play] in its environment *)

(** The accessor calls of lines 12-37. *)
Definition metadata_queries : list event :=
  match subtitle_uri srv with
  | Some _ => [EvQuery "subtitle_uri"; EvQuery "video_uri"; EvQuery "video_type";
               EvQuery "subtitle_type"]
  | None => [EvQuery "subtitle_uri"]
  end.

(** The body [play] sends with [SetAVTransportURI]. *)
Definition setav_payload : string :=
  payload_setavtransporturi (video_uri srv) (payload_subtitle srv).

(** Refinement of the metadata computation: through the accessor calls,
    lines 12-42 compute [Metadata.payload_subtitle] of the server. *)
Lemma exec_payload_subtitle_prog t tr :
  exec payload_subtitle_prog t tr =
  mkConfig (Ret (payload_subtitle srv)) t (tr ++ metadata_queries)%list.
Proof.
  unfold payload_subtitle_prog, metadata_queries, payload_subtitle. simpl.
  destruct (subtitle_uri srv); simpl; rewrite <- ?app_assoc; reflexivity.
Qed.

Variable render : Render.

(** The initial configuration of a session. *)
Definition play_init : config unit := mkConfig (play render) NotSpawned [].

(** The observable prefix of [play] up to the [SetAVTransportURI] call. *)
Definition play_prefix : list event :=
  (metadata_queries ++
   [EvQuery "video_uri"; EvPrint "Starting media streaming server..."; EvSpawn;
    EvPrint "Setting Video URI"])%list.



(** Where [play] ends, by the renderer's answers and the task's result. *)
Definition play_end : config unit :=
  let url := device_url render in
  match answer url "SetAVTransportURI" setav_payload with
  | Err e =>
      mkConfig (Panic (diag_setav e)) (Finished run_result)
               (play_prefix ++ [EvAction url "SetAVTransportURI" setav_payload (Err e)])%list
  | Ok u =>
      match answer url "Play" PAYLOAD_PLAY with
      | Err e =>
          mkConfig (Panic (diag_play e)) (Finished run_result)
                   (play_prefix ++ [EvAction url "SetAVTransportURI" setav_payload (Ok u);
                                    EvPrint "Playing video";
                                    EvAction url "Play" PAYLOAD_PLAY (Err e)])%list
      | Ok v =>
          mkConfig (match run_result with Ok _ => Ret tt | Err e => Panic (diag_serve e) end)
                   (Finished run_result)
                   (play_prefix ++ [EvAction url "SetAVTransportURI" setav_payload (Ok u);
                                    EvPrint "Playing video";
                                    EvAction url "Play" PAYLOAD_PLAY (Ok v);
                                    EvJoin run_result])%list
      end
  end.

Lemma play_run_to_end : run_to_end play_init = play_end.
Proof.
  unfold run_to_end, play_init, play_end, setav_payload, play. cbn [c_prog c_task c_trace].
  rewrite exec_bind, exec_payload_subtitle_prog. simpl. destruct (answer _ "SetAVTransportURI" _) as [u|e]; simpl.
  - destruct (answer _ "Play" _) as [v|e]; simpl.
    + destruct run_result; unfold play_prefix; simpl; now rewrite <- !app_assoc.
    + unfold play_prefix. now rewrite <- !app_assoc.
  - unfold play_prefix. now rewrite <- !app_assoc.
Qed.


End Semantics.

(** ** The order of the control calls *)

Definition is_ok (r : result unit string) : bool :=
  match r with Ok _ => true | Err _ => false end.

(** [SetAVTransportURI] only after the spawn; [Play] only after a
    [SetAVTransportURI] that succeeded.  [spawned] and [setav_ok] record
    what the trace has shown so far. *)
Fixpoint play_order (spawned setav_ok : bool) (tr : list event) : bool :=
  match tr with
  | [] => true
  | EvSpawn :: tr' => play_order true setav_ok tr'
  | EvAction _ name _ r :: tr' =>
      if String.eqb name "SetAVTransportURI" then spawned && play_order spawned (is_ok r) tr'
      else if String.eqb name "Play" then setav_ok && play_order spawned setav_ok tr'
      else play_order spawned setav_ok tr'
  | _ :: tr' => play_order spawned setav_ok tr'
  end.

Lemma play_order_app b1 b2 (l1 l2 : list event) :
  play_order b1 b2 (l1 ++ l2)%list = true -> play_order b1 b2 l1 = true.
Proof.
  revert b1 b2. induction l1 as [|ev l1 IH]; intros b1 b2; simpl; [reflexivity|].
  destruct ev as [| | |url name payload r|r]; try apply IH.
  destruct (String.eqb name "SetAVTransportURI"); [|destruct (String.eqb name "Play")];
    rewrite ?andb_true_iff; try apply IH; intros [Hb H]; split; auto.
Qed.

(** The number of times an action was sent. *)
Definition count_action (name : string) (tr : list event) : nat :=
  List.length (filter (fun ev => match ev with
                                 | EvAction _ n _ _ => String.eqb n name
                                 | _ => false
                                 end) tr).

Lemma count_action_app name (l1 l2 : list event) :
  count_action name (l1 ++ l2)%list = count_action name l1 + count_action name l2.
Proof. unfold count_action. now rewrite filter_app, length_app. Qed.

Lemma count_action_queries name {S} `{MediaStreaming S} (srv : S) :
  count_action name (metadata_queries srv) = 0.
Proof. unfold metadata_queries. now destruct (subtitle_uri srv). Qed.

Lemma play_order_queries b1 b2 {S} `{MediaStreaming S} (srv : S) l :
  play_order b1 b2 (metadata_queries srv ++ l)%list = play_order b1 b2 l.
Proof. unfold metadata_queries. now destruct (subtitle_uri srv). Qed.

(** ** Theorems about [play] *)

Section PlayTheorems.
Context {S : Type} `{MediaStreaming S}.
Variables (srv : S) (answer : string -> string -> string -> result unit string)
          (run_result : result unit string) (render : Render).

Abbreviation step := (step srv answer run_result).
Abbreviation play_init := (play_init render).
Abbreviation play_end := (play_end srv answer run_result render).
Abbreviation setav_payload := (setav_payload srv).
Abbreviation url := (device_url render).

(** Every action of every schedule is one of the two calls of [play], to
    the renderer's control URL, with its body. *)
Lemma play_actions c url' name body r :
  star step play_init c -> In (EvAction url' name body r) (c_trace c) ->
  url' = url /\ ((name = "SetAVTransportURI" /\ body = setav_payload) \/
                  (name = "Play" /\ body = PAYLOAD_PLAY)).
Proof.
  intros Hs Hin. destruct (reachable_prefix _ _ _ _ _ Hs) as [l Hl].
  assert (Hend : In (EvAction url' name body r)
                    (c_trace (run_to_end srv answer run_result play_init)))
    by (rewrite Hl; apply in_or_app; now left).
  rewrite play_run_to_end in Hend. unfold play_end, play_prefix, metadata_queries in Hend.
  cbv zeta in Hend.
  destruct (answer url "SetAVTransportURI" setav_payload);
    [destruct (answer url "Play" PAYLOAD_PLAY); [destruct run_result|]|];
    destruct (subtitle_uri srv); cbn [c_trace] in Hend; simpl in Hend;
    repeat match goal with H : _ \/ _ |- _ => destruct H as [H|H] end;
    try discriminate; try contradiction;
    injection Hend as <- <- <- <-; tauto.
Qed.

(** C11. When the renderer accepts both calls and the streaming task ends
    well, the session returns, having sent [SetAVTransportURI] with the
    payload of the server's media and then [Play], and joined the task. *)
Theorem play_success :
  answer url "SetAVTransportURI" setav_payload = Ok tt ->
  answer url "Play" PAYLOAD_PLAY = Ok tt ->
  run_result = Ok tt ->
  run_to_end srv answer run_result play_init =
  mkConfig (Ret tt) (Finished (Ok tt))
    (play_prefix srv ++ [EvAction url "SetAVTransportURI" setav_payload (Ok tt);
                         EvPrint "Playing video"; EvAction url "Play" PAYLOAD_PLAY (Ok tt);
                         EvJoin (Ok tt)])%list.
Proof.
  intros Hs Hp Hr. rewrite play_run_to_end. unfold play_end. now rewrite Hs, Hp, Hr.
Qed.

(** C2. A failed [SetAVTransportURI] ends the session with a panic naming it
    and the error; [Play] is never sent and the task never joined. *)
Theorem play_setav_error e :
  answer url "SetAVTransportURI" setav_payload = Err e ->
  c_prog (run_to_end srv answer run_result play_init) = Panic (diag_setav e) /\
  forall ev, In ev (c_trace (run_to_end srv answer run_result play_init)) ->
    (forall p r, ev <> EvAction url "Play" p r) /\ (forall r, ev <> EvJoin r).
Proof.
  intros He. rewrite play_run_to_end. unfold play_end. rewrite He. split; [reflexivity|].
  intros ev Hin. unfold play_prefix, metadata_queries in Hin.
  destruct (subtitle_uri srv); simpl in Hin; intuition (subst; discriminate).
Qed.

(** C12. A failed [Play] ends the session with a panic naming it and the
    error; the task is never joined. *)
Theorem play_play_error e :
  answer url "SetAVTransportURI" setav_payload = Ok tt ->
  answer url "Play" PAYLOAD_PLAY = Err e ->
  run_to_end srv answer run_result play_init =
  mkConfig (Panic (diag_play e)) (Finished run_result)
    (play_prefix srv ++ [EvAction url "SetAVTransportURI" setav_payload (Ok tt);
                         EvPrint "Playing video"; EvAction url "Play" PAYLOAD_PLAY (Err e)])%list.
Proof. intros Hs Hp. rewrite play_run_to_end. unfold play_end. now rewrite Hs, Hp. Qed.

(** C3. Once both calls succeeded, the session's result is the streaming
    task's: success as success, an error as a panic naming it. *)
Theorem play_join_result :
  answer url "SetAVTransportURI" setav_payload = Ok tt ->
  answer url "Play" PAYLOAD_PLAY = Ok tt ->
  c_prog (run_to_end srv answer run_result play_init) =
  match run_result with Ok _ => Ret tt | Err e => Panic (diag_serve e) end.
Proof. intros Hs Hp. rewrite play_run_to_end. unfold play_end. now rewrite Hs, Hp. Qed.


(** C1. In every schedule, at every moment, [SetAVTransportURI] has been sent
    only after the streaming task was spawned, and [Play] only after a
    successful [SetAVTransportURI]. *)
Theorem play_action_order c :
  star step play_init c -> play_order false false (c_trace c) = true.
Proof.
  intros Hs. destruct (reachable_prefix _ _ _ _ _ Hs) as [l Hl].
  apply (play_order_app _ _ _ l). rewrite <- Hl, play_run_to_end.
  unfold play_end, play_prefix.
  destruct (answer url "SetAVTransportURI" setav_payload);
    [destruct (answer url "Play" PAYLOAD_PLAY)|]; cbv zeta; cbn [c_trace];
    rewrite <- app_assoc, play_order_queries; reflexivity.
Qed.

(** C20. Whatever the schedule, a session that cannot go on is in [play_end]:
    when the streaming task completes does not change the outcome. *)
Theorem play_schedule_independent c :
  star step play_init c -> irreducible step c -> c = play_end.
Proof.
  intros Hs Hirr. rewrite <- play_run_to_end. exact (star_irreducible_end _ _ _ _ _ Hs Hirr).
Qed.

(** C21. No deadlock: from every moment of every schedule the session can
    still reach its end, where nothing can move. *)
Theorem play_reaches_end c :
  star step play_init c -> star step c play_end /\ irreducible step play_end.
Proof.
  intros Hs. rewrite <- play_run_to_end, <- (star_run_to_end _ _ _ _ _ Hs). split.
  - apply run_to_end_star.
  - apply run_to_end_irreducible.
Qed.

(** C23. With a subtitle, [play] calls every accessor before it spawns the
    streaming task, and calls [video_uri()] twice. *)
Theorem play_queries_before_spawn su :
  subtitle_uri srv = Some su ->
  firstn 7 (c_trace (run_to_end srv answer run_result play_init)) =
  [EvQuery "subtitle_uri"; EvQuery "video_uri"; EvQuery "video_type"; EvQuery "subtitle_type";
   EvQuery "video_uri"; EvPrint "Starting media streaming server..."; EvSpawn].
Proof.
  intros Hsu. rewrite play_run_to_end. unfold play_end, play_prefix, metadata_queries.
  rewrite Hsu. destruct (answer url "SetAVTransportURI" setav_payload);
    [destruct (answer url "Play" PAYLOAD_PLAY)|]; reflexivity.
Qed.

(** C22. Every schedule of a session is finite: it takes at most 13 steps (five
    accessor calls, three prints, the spawn, two actions, the join and the
    task's completion). *)
Theorem play_schedule_bounded n c :
  nsteps step n play_init c -> n <= 13.
Proof.
  intros Hn.
  pose proof (nsteps_bound _ (measure srv answer run_result) (step_measure srv answer run_result)
                _ _ _ Hn) as Hb.
  enough (measure srv answer run_result play_init <= 13) by lia.
  unfold measure, play_init, play, payload_subtitle_prog. cbn [c_prog c_task].
  simpl. destruct (subtitle_uri srv); simpl;
    destruct (answer _ "SetAVTransportURI" _); simpl;
    try (destruct (answer _ "Play" _); simpl); try (destruct run_result; simpl); lia.
Qed.

(** C13. No retry: at every moment of every schedule, each control action has
    been sent at most once. *)
Theorem play_no_retry c :
  star step play_init c ->
  count_action "SetAVTransportURI" (c_trace c) <= 1 /\ count_action "Play" (c_trace c) <= 1.
Proof.
  intros Hs. destruct (reachable_prefix _ _ _ _ _ Hs) as [l Hl].
  pose proof (count_action_app "SetAVTransportURI" (c_trace c) l).
  pose proof (count_action_app "Play" (c_trace c) l).
  rewrite <- Hl, play_run_to_end in *. unfold play_end, play_prefix in *. cbv zeta in *.
  destruct (answer url "SetAVTransportURI" setav_payload);
    [destruct (answer url "Play" PAYLOAD_PLAY)|]; cbn [c_trace] in *;
    rewrite !count_action_app, !count_action_queries in *;
    unfold count_action in *; simpl in *; lia.
Qed.


(** C6. Composition down to the metadata: when the server has a subtitle and
    each of its values reads back as itself, every [SetAVTransportURI] of
    every schedule carries a body whose [CurrentURIMetaData] an XML reader
    reads, as a document, as exactly the spec's DIDL-Lite tree of the
    server's video URI, video type, subtitle URI and subtitle type
    (["unknown"] by default). *)
Theorem play_metadata_shape c su url' body r :
  star step play_init c -> subtitle_uri srv = Some su ->
  plain_value (video_uri srv) = true -> plain_value (video_type srv) = true ->
  plain_value su = true -> plain_value (unwrap_or (subtitle_type srv) "unknown") = true ->
  In (EvAction url' "SetAVTransportURI" body r) (c_trace c) ->
  exists md,
    parse_fragment body = Some (setav_fields (video_uri srv) md) /\
    parse_document md =
      Some (didl_shape (video_uri srv) (video_type srv) su (unwrap_or (subtitle_type srv) "unknown")).
Proof.
  intros Hs Hsu Hu Ht Hsb Hst Hin.
  destruct (play_actions _ _ _ _ _ Hs Hin) as [_ [[_ ->]|[E _]]]; [|discriminate].
  destruct (proj1 (plain_value_iff _) Hu) as [Hm Hb].
  exists (metadata_document srv). split; [now apply setav_body_parse |].
  apply metadata_document_shape; assumption.
Qed.

End PlayTheorems.

(** ** Witnesses *)

Definition demo_render : Render := mkRender "http://tv/AVTransport/control".

Definition renderer_accepts : string -> string -> string -> result unit string :=
  fun _ _ _ => Ok tt.

Definition renderer_rejects (act err : string) : string -> string -> string -> result unit string :=
  fun _ name _ => if String.eqb name act then Err err else Ok tt.

Lemma play_success_witness :
  run_to_end demo_server renderer_accepts (Ok tt) (play_init demo_render) =
  mkConfig (Ret tt) (Finished (Ok tt))
    (play_prefix demo_server ++
     [EvAction (device_url demo_render) "SetAVTransportURI" (setav_payload demo_server) (Ok tt);
      EvPrint "Playing video";
      EvAction (device_url demo_render) "Play" PAYLOAD_PLAY (Ok tt);
      EvJoin (Ok tt)])%list.
Proof. apply play_success; reflexivity. Defined.

Lemma play_setav_error_witness :
  c_prog (run_to_end demo_server (renderer_rejects "SetAVTransportURI" "timeout") (Ok tt)
            (play_init demo_render)) = Panic (diag_setav "timeout").
Proof.
  apply (play_setav_error demo_server (renderer_rejects "SetAVTransportURI" "timeout")
           (Ok tt) demo_render "timeout").
  reflexivity.
Defined.

Lemma play_play_error_witness :
  c_prog (run_to_end demo_server (renderer_rejects "Play" "busy") (Ok tt) (play_init demo_render))
  = Panic (diag_play "busy").
Proof.
  rewrite (play_play_error demo_server (renderer_rejects "Play" "busy") (Ok tt) demo_render "busy");
    reflexivity.
Defined.

Lemma play_join_result_witness :
  c_prog (run_to_end demo_server renderer_accepts (Err "address in use") (play_init demo_render))
  = Panic (diag_serve "address in use").
Proof. apply play_join_result; reflexivity. Defined.


Lemma play_action_order_witness :
  play_order false false
    (c_trace (run_to_end demo_server renderer_accepts (Ok tt) (play_init demo_render))) = true.
Proof. apply (play_action_order demo_server renderer_accepts (Ok tt) demo_render). apply run_to_end_star. Defined.

Lemma play_schedule_independent_witness :
  run_to_end demo_server renderer_accepts (Ok tt) (play_init demo_render) =
  play_end demo_server renderer_accepts (Ok tt) demo_render.
Proof.
  apply play_schedule_independent; [apply run_to_end_star | apply run_to_end_irreducible].
Defined.

Lemma play_reaches_end_witness :
  star (step demo_server renderer_accepts (Ok tt)) (play_init demo_render)
       (play_end demo_server renderer_accepts (Ok tt) demo_render).
Proof. apply (play_reaches_end demo_server renderer_accepts (Ok tt) demo_render). apply star_refl. Defined.

Lemma play_queries_before_spawn_witness :
  firstn 7 (c_trace (run_to_end demo_server renderer_accepts (Ok tt) (play_init demo_render))) =
  [EvQuery "subtitle_uri"; EvQuery "video_uri"; EvQuery "video_type"; EvQuery "subtitle_type";
   EvQuery "video_uri"; EvPrint "Starting media streaming server..."; EvSpawn].
Proof. apply (play_queries_before_spawn _ _ _ _ "http://h/s.srt"). reflexivity. Defined.

(** The bound is reached: the successful session with a subtitle takes 13
    steps. *)
Lemma play_schedule_bounded_witness : 13 <= 13.
Proof.
  apply (play_schedule_bounded demo_server renderer_accepts (Ok tt) demo_render 13
           (run_to_end demo_server renderer_accepts (Ok tt) (play_init demo_render))).
  do 13 (eapply nsteps_step; [simpl; econstructor|]).
  vm_compute. apply nsteps_refl.
Defined.

Lemma play_no_retry_witness :
  count_action "SetAVTransportURI"
    (c_trace (run_to_end demo_server renderer_accepts (Ok tt) (play_init demo_render))) <= 1 /\
  count_action "Play"
    (c_trace (run_to_end demo_server renderer_accepts (Ok tt) (play_init demo_render))) <= 1.
Proof. apply (play_no_retry demo_server renderer_accepts (Ok tt) demo_render). apply run_to_end_star. Defined.



Lemma play_metadata_shape_witness :
  exists md,
    parse_fragment (setav_payload demo_server) = Some (setav_fields (video_uri demo_server) md) /\
    parse_document md =
      Some (didl_shape "http://h/v.mp4" "mp4" "http://h/s.srt" (unwrap_or (Some "srt") "unknown")).
Proof.
  refine (play_metadata_shape demo_server renderer_accepts (Ok tt) demo_render
            (run_to_end demo_server renderer_accepts (Ok tt) (play_init demo_render))
            "http://h/s.srt" (device_url demo_render) (setav_payload demo_server) (Ok tt)
            _ _ _ _ _ _ _);
    [apply run_to_end_star | reflexivity .. |].
  vm_compute. repeat (first [left; reflexivity | right]).
Defined.

(** Each diagnostic names the failing step and carries the error. *)
Lemma diag_occurrences e :
  1 <= occ "SetAVTransportURI" (diag_setav e) /\ 1 <= occ "Play" (diag_play e) /\
  (e <> EmptyString ->
   1 <= occ e (diag_setav e) /\ 1 <= occ e (diag_play e) /\ 1 <= occ e (diag_serve e)).
Proof.
  split; [|split]; [vm_compute; lia | vm_compute; lia|].
  intros He. assert (Hsuf : forall pre, 1 <= occ e (pre ++ e)).
  { intros pre. pose proof (occ_app_ge e pre e He). pose proof (occ_self e He). lia. }
  repeat split; apply Hsuf.
Qed.

End Orchestrator.
