(* ===== verification/SessionSpec.v ===== *)
(** * The session contract and its refinement by [play]

    Section 4.2 of the spec describes a playback session as a state machine
    [Idle -> StreamingStarted -> TransportUriSet -> Playing -> Completed],
    with a terminal [Failed] reached from any non-terminal state, no retry,
    and a diagnostic naming the failed step and its error (section 7).
    [sstep] is that machine, labelled by what the orchestrator can be seen
    to do: launch the streaming task, get an answer to [SetAVTransportURI]
    or [Play], see the streaming task end.  [observe] maps the events of
    [Orchestrator] to these labels and hides the rest (accessor calls,
    console output).

    The refinement theorems show that every schedule of [play], at every
    moment, has followed a path of the machine, and that at its end the
    session's outcome is the machine's final state: a return is
    [Completed] and a panic is [Failed] with a message that names the
    failed step and carries its error. *)

From Stdlib Require Import String Ascii List Bool Lia.
From S2P Require Import Prelude Escape Format Streaming Metadata Payload Orchestrator.
Import ListNotations.
Local Open Scope string_scope.

Module SessionSpec.
Import Streaming Payload Orchestrator.

Inductive failure : Type :=
| ControlFailed (action error : string)
| StreamFailed (error : string).

Inductive session_state : Type :=
| Idle
| StreamingStarted
| TransportUriSet
| Playing
| Completed
| Failed (f : failure).

Inductive obs : Type :=
| OLaunch
| OSetTransportUri (r : result unit string)
| OPlay (r : result unit string)
| OStreamEnd (r : result unit string).

Inductive sstep : session_state -> obs -> session_state -> Prop :=
| s_launch : sstep Idle OLaunch StreamingStarted
| s_set_uri_ok u : sstep StreamingStarted (OSetTransportUri (Ok u)) TransportUriSet
| s_set_uri_err e :
    sstep StreamingStarted (OSetTransportUri (Err e)) (Failed (ControlFailed "SetAVTransportURI" e))
| s_play_ok u : sstep TransportUriSet (OPlay (Ok u)) Playing
| s_play_err e : sstep TransportUriSet (OPlay (Err e)) (Failed (ControlFailed "Play" e))
| s_stream_ok u : sstep Playing (OStreamEnd (Ok u)) Completed
| s_stream_err e : sstep Playing (OStreamEnd (Err e)) (Failed (StreamFailed e)).

(** Paths of the machine. *)
Inductive path : session_state -> list obs -> session_state -> Prop :=
| path_nil s : path s [] s
| path_cons s o s' l s'' : sstep s o s' -> path s' l s'' -> path s (o :: l) s''.

#[export] Hint Constructors sstep path : dlna.

(** What the contract sees of an event of the orchestrator. *)
Definition observe (ev : event) : option obs :=
  match ev with
  | EvSpawn => Some OLaunch
  | EvAction _ name _ r =>
      if String.eqb name "SetAVTransportURI" then Some (OSetTransportUri r)
      else if String.eqb name "Play" then Some (OPlay r)
      else None
  | EvJoin r => Some (OStreamEnd r)
  | _ => None
  end.

Definition observations (tr : list event) : list obs :=
  flat_map (fun ev => match observe ev with Some o => [o] | None => [] end) tr.

(** The diagnostic of a failure names what failed and carries the error. *)
Definition reports (msg : string) (f : failure) : Prop :=
  match f with
  | ControlFailed action e => 1 <= occ action msg /\ (e <> EmptyString -> 1 <= occ e msg)
  | StreamFailed e => e <> EmptyString -> 1 <= occ e msg
  end.

(** A final configuration of the orchestrator matches a final state. *)
Definition outcome_matches (p : prog unit) (s : session_state) : Prop :=
  match p, s with
  | Ret _, Completed => True
  | Panic msg, Failed f => reports msg f
  | _, _ => False
  end.

(** ** Lemmas *)

Lemma path_app s l1 l2 s'' :
  path s (l1 ++ l2) s'' -> exists s', path s l1 s'.
Proof.
  revert s. induction l1 as [|o l1 IH]; intros s H; [eauto with dlna|].
  inversion H as [|? ? s1 ? ? Hs Hp]; subst.
  destruct (IH _ Hp) as [s' Hs']. eauto with dlna.
Qed.

Lemma observations_app l1 l2 :
  observations (l1 ++ l2) = (observations l1 ++ observations l2)%list.
Proof. apply flat_map_app. Qed.

Lemma observations_queries {S} `{MediaStreaming S} (srv : S) :
  observations (metadata_queries srv) = [].
Proof. unfold metadata_queries. now destruct (subtitle_uri srv). Qed.

(** ** Refinement *)

Section Refinement.
Context {S : Type} `{MediaStreaming S}.
Variables (srv : S) (answer : string -> string -> string -> result unit string)
          (run_result : result unit string) (render : Render).

Lemma play_end_refines :
  exists s, path Idle (observations (c_trace (play_end srv answer run_result render))) s /\
            outcome_matches (c_prog (play_end srv answer run_result render)) s.
Proof.
  unfold play_end. cbv zeta.
  destruct (answer _ "SetAVTransportURI" _) as [u|e];
    [destruct (answer _ "Play" _) as [v|e]; [destruct run_result as [w|e]|]|];
    cbn [c_trace c_prog]; unfold play_prefix;
    rewrite !observations_app, observations_queries; simpl.
  - exists Completed. split; [eauto 10 with dlna | exact I].
  - pose proof (diag_occurrences e) as Hd.
    exists (Failed (StreamFailed e)). split; [eauto 10 with dlna | simpl; tauto].
  - pose proof (diag_occurrences e) as Hd.
    exists (Failed (ControlFailed "Play" e)). split; [eauto 10 with dlna | simpl; tauto].
  - pose proof (diag_occurrences e) as Hd.
    exists (Failed (ControlFailed "SetAVTransportURI" e)). split; [eauto 10 with dlna | simpl; tauto].
Qed.

(** C4. Refinement: at the end of every schedule, [play] has followed a path
    of the session machine from [Idle] to a final state matching its
    outcome. *)
Theorem play_refines_session c :
  star (step srv answer run_result) (play_init render) c ->
  irreducible (step srv answer run_result) c ->
  exists s, path Idle (observations (c_trace c)) s /\ outcome_matches (c_prog c) s.
Proof.
  intros Hs Hirr. rewrite (star_irreducible_end _ _ _ _ _ Hs Hirr), play_run_to_end.
  apply play_end_refines.
Qed.

(** C24. Safety: at every moment of every schedule, what [play] has done is a
    path of the session machine from [Idle]. *)
Theorem play_session_path c :
  star (step srv answer run_result) (play_init render) c ->
  exists s, path Idle (observations (c_trace c)) s.
Proof.
  intros Hs. destruct (reachable_prefix _ _ _ _ _ Hs) as [l Hl].
  destruct play_end_refines as [s [Hp _]].
  rewrite <- play_run_to_end in Hp. unfold play_init in *. rewrite Hl, observations_app in Hp.
  exact (path_app _ _ _ _ Hp).
Qed.

End Refinement.

(** ** Witnesses *)

Lemma play_refines_session_witness :
  exists s, path Idle (observations (c_trace (run_to_end demo_server renderer_accepts (Ok tt)
                                                (play_init demo_render)))) s /\
            outcome_matches (c_prog (run_to_end demo_server renderer_accepts (Ok tt)
                                       (play_init demo_render))) s.
Proof.
  apply (play_refines_session demo_server renderer_accepts (Ok tt) demo_render);
    [apply run_to_end_star | apply run_to_end_irreducible].
Defined.

Lemma play_session_path_witness :
  exists s, path Idle (observations (c_trace (play_init demo_render))) s.
Proof.
  apply (play_session_path demo_server renderer_accepts (Ok tt) demo_render). apply star_refl.
Defined.

End SessionSpec.
